(** * Tredgate Loan: the audit log service, the loan service and the
      orchestration in App.vue, as a shallow embedding.

    Sources embedded here:
    - [src/types/auditLog.ts]             the entry and input records;
    - [src/services/auditLogService.ts]   load, save, constructors, append,
                                          filter, search, sort, query;
    - [src/App.vue]                       the four handlers and [refreshLoans];
    - [src/components/LoanList.vue]       which events a row can emit, and
                                          the delete dialog;
    - [src/components/ConfirmModal.vue]   the dialog;
    - [src/components/AuditLogViewer.vue] the viewer of the log;
    - [e2e-tests/helpers/test-helpers.ts] the helper that reads the loans.

    [src/services/loanService.ts], [src/types/loan.ts] and
    [src/components/LoanForm.vue] are not among the sources; what is needed of
    them is in the modules [Loan], [LoanService] and [LoanForm], each
    definition marked as modelled from the specification.

    Conventions.  A JavaScript [number] that holds money or a rate is a
    rational ([Q], exact arithmetic); a number that holds a count of months
    or a clock reading in milliseconds is an integer ([Z]).  Division by
    zero, which gives [Infinity] or [NaN] in JavaScript, is outside this
    reading ([Q] gives 0); the loans of the data model have a positive
    term.  A JavaScript string is a [string] whose characters are read as
    the code units 0..255 (Latin-1).  An optional property is an
    [option].  The key [tredgate_audit_logs] ([STORAGE_KEY]) and the key
    [tredgate_loans] are the two fields of the record [localStorage]. *)

From Stdlib Require Import ZArith QArith Qpower Lia Lqa List String Ascii
  Sorting.Sorted Sorting.Permutation.
From stdpp Require Import base option list.

Import ListNotations.
Local Open Scope string_scope.
Local Open Scope Z_scope.

(** ** JavaScript strings *)

Module JS.

(** Code unit of a character. *)
Definition code (c : ascii) : N := N_of_ascii c.

(** [WhiteSpace] and [LineTerminator] code points below 256: TAB, LF, VT,
    FF, CR, SP and NBSP.  These are what [String.prototype.trim] strips. *)
Definition isWhiteSpace (c : ascii) : bool :=
  let n := code c in
  (((9 <=? n) && (n <=? 13)) || (n =? 32) || (n =? 160))%N.

(** [String.prototype.toLowerCase] on one code unit: A..Z and the Latin-1
    capitals (all of 192..222 but the multiplication sign 215) move up
    by 32. *)
Definition toLowerCase_char (c : ascii) : ascii :=
  let n := code c in
  if (((65 <=? n) && (n <=? 90))
      || ((192 <=? n) && (n <=? 222) && negb (n =? 215)))%N
  then ascii_of_N (n + 32) else c.

Fixpoint toLowerCase (s : string) : string :=
  match s with
  | EmptyString => EmptyString
  | String c s' => String (toLowerCase_char c) (toLowerCase s')
  end.

Fixpoint trimStart (s : string) : string :=
  match s with
  | EmptyString => EmptyString
  | String c s' => if isWhiteSpace c then trimStart s' else s
  end.

(** Drops the white space at the end: a character is kept when it is not
    white space or when something is kept after it. *)
Fixpoint trimEnd (s : string) : string :=
  match s with
  | EmptyString => EmptyString
  | String c s' =>
      match trimEnd s' with
      | EmptyString => if isWhiteSpace c then EmptyString
                       else String c EmptyString
      | kept => String c kept
      end
  end.

Definition trim (s : string) : string := trimEnd (trimStart s).

(** [s.includes(t)]: [t] occurs in [s] at some position. *)
Fixpoint includes (s t : string) : bool :=
  String.prefix t s
  || match s with
     | EmptyString => false
     | String _ s' => includes s' t
     end.

(** [!s] for a string: only the empty string is falsy. *)
Definition isEmpty (s : string) : bool :=
  match s with EmptyString => true | _ => false end.

(** One digit of [Number.prototype.toString(36)]. *)
Definition digit36 (d : Z) : ascii :=
  if d <? 10 then ascii_of_N (Z.to_N (48 + d))
  else ascii_of_N (Z.to_N (87 + d)).

Fixpoint digits36 (fuel : nat) (n : Z) (acc : string) : string :=
  match fuel with
  | O => acc
  | S fuel' =>
      let acc' := String (digit36 (n mod 36)) acc in
      if n / 36 =? 0 then acc' else digits36 fuel' (n / 36) acc'
  end.

(** [n.toString(36)] for an integer [n]. *)
Definition toString36 (n : Z) : string :=
  if n <? 0
  then String "-" (digits36 (S (Z.to_nat (Z.log2 (- n)))) (- n) "")
  else digits36 (S (Z.to_nat (Z.log2 n))) n "".

(** [s.substring(a, b)] for [a <= b]. *)
Definition substring (a b : nat) (s : string) : string :=
  String.substring a (b - a) s.

(** Decimal digits of [n], left-padded with zeros to [width]. *)
Fixpoint pad (width : nat) (n : Z) (acc : string) : string :=
  match width with
  | O => acc
  | S w => pad w (n / 10) (String (ascii_of_N (Z.to_N (48 + n mod 10))) acc)
  end.

(** Year, month and day of a day count since 1970-01-01 (proleptic
    Gregorian calendar, as [Date] uses). *)
Definition civil_from_days (days : Z) : Z * Z * Z :=
  let z := days + 719468 in
  let era := z / 146097 in
  let doe := z - era * 146097 in
  let yoe := (doe - doe / 1460 + doe / 36524 - doe / 146096) / 365 in
  let doy := doe - (365 * yoe + yoe / 4 - yoe / 100) in
  let mp := (5 * doy + 2) / 153 in
  let d := doy - (153 * mp + 2) / 5 + 1 in
  let m := if mp <? 10 then mp + 3 else mp - 9 in
  let y := yoe + era * 400 + (if m <=? 2 then 1 else 0) in
  (y, m, d).

Definition days_from_civil (y m d : Z) : Z :=
  let y' := if m <=? 2 then y - 1 else y in
  let era := y' / 400 in
  let yoe := y' - era * 400 in
  let doy := (153 * (if 2 <? m then m - 3 else m + 9) + 2) / 5 + d - 1 in
  let doe := yoe * 365 + yoe / 4 - yoe / 100 + doy in
  era * 146097 + doe - 719468.

(** [new Date(t).toISOString()] for a time value [t] in milliseconds:
    [YYYY-MM-DDTHH:mm:ss.sssZ], with the six-digit signed year outside
    0..9999. *)
Definition toISOString (t : Z) : string :=
  let days := t / 86400000 in
  let ms := t mod 86400000 in
  let '(y, m, d) := civil_from_days days in
  let year :=
    if (0 <=? y) && (y <=? 9999) then pad 4 y ""
    else if y <? 0 then String "-" (pad 6 (- y) "")
    else String "+" (pad 6 y "") in
  year ++ "-" ++ pad 2 m "" ++ "-" ++ pad 2 d "" ++ "T"
    ++ pad 2 (ms / 3600000) "" ++ ":" ++ pad 2 (ms / 60000 mod 60) ""
    ++ ":" ++ pad 2 (ms / 1000 mod 60) "" ++ "." ++ pad 3 (ms mod 1000) ""
    ++ "Z".

End JS.

(** ** [src/types/auditLog.ts] *)

(** [AuditActionType]: a union of four string literals. *)
Inductive AuditActionType : Type :=
| loan_created
| status_changed_manual
| status_changed_auto
| loan_deleted.

(** The literal an action type is at run time. *)
Definition actionType_literal (a : AuditActionType) : string :=
  match a with
  | loan_created => "loan_created"
  | status_changed_manual => "status_changed_manual"
  | status_changed_auto => "status_changed_auto"
  | loan_deleted => "loan_deleted"
  end.

Record AuditLogEntry : Type := mkAuditLogEntry {
  id : string;
  timestamp : string;
  actionType : AuditActionType;
  loanId : string;
  applicantName : string;
  previousStatus : option string;
  newStatus : option string;
  loanAmount : Q;
  decisionMethod : option string
}.

Record CreateLoanLogInput : Type := mkCreateLoanLogInput {
  cl_loanId : string;
  cl_applicantName : string;
  cl_loanAmount : Q
}.

Record StatusChangeLogInput : Type := mkStatusChangeLogInput {
  sc_loanId : string;
  sc_applicantName : string;
  sc_loanAmount : Q;
  sc_previousStatus : string;
  sc_newStatus : string;
  sc_isAuto : bool
}.

Record DeleteLoanLogInput : Type := mkDeleteLoanLogInput {
  dl_loanId : string;
  dl_applicantName : string;
  dl_loanAmount : Q;
  dl_status : string
}.

(** ** Effects: a state, and a value or a thrown error *)

Inductive Error : Type :=
| SyntaxError                     (* thrown by [JSON.parse] *)
| TypeError                       (* a method called on what has none *)
| ValidationError (message : string)
| NotFoundError
| QuotaExceededError.             (* thrown by [localStorage.setItem] *)

Inductive Completion (A : Type) : Type :=
| Normal (a : A)
| Throw (e : Error).
Arguments Normal {A} a.
Arguments Throw {A} e.

(** A call runs on a state [S]; what it wrote before it threw stays
    written. *)
Definition Eff (S A : Type) : Type := S -> Completion A * S.

Definition eret {S A} (a : A) : Eff S A := fun s => (Normal a, s).
Definition ethrow {S A} (e : Error) : Eff S A := fun s => (Throw e, s).
Definition ebind {S A B} (m : Eff S A) (k : A -> Eff S B) : Eff S B :=
  fun s =>
    match m s with
    | (Normal a, s') => k a s'
    | (Throw e, s') => (Throw e, s')
    end.

(** [try { body } catch { handler }]. *)
Definition try_catch {S A} (body : Eff S A) (handler : Error -> Eff S A)
  : Eff S A :=
  fun s =>
    match body s with
    | (Normal a, s') => (Normal a, s')
    | (Throw e, s') => handler e s'
    end.

Declare Scope eff_scope.
Delimit Scope eff_scope with eff.
Notation "'let!' x ':=' m 'in' k" := (ebind m (fun x => k))
  (at level 10, x name, m at level 100, k at level 200,
   format "'[v' 'let!'  x  ':='  m  'in' '/' k ']'") : eff_scope.
Notation "m ';;' k" := (ebind m (fun _ => k))
  (at level 100, k at level 200, right associativity) : eff_scope.

(** The completion and the final state of a run. *)
Definition completion {S A} (r : Completion A * S) : Completion A := fst r.
Definition final {S A} (r : Completion A * S) : S := snd r.

(** ** The persistent store *)

(** A text held in [localStorage], up to what [JSON.parse] makes of it.
    [JSON.parse (JSON.stringify a)] gives back the records of an array [a] of
    plain records, so the text written for an array is identified with the
    array; a text that is not JSON keeps its characters. *)
Inductive StoredText (A : Type) : Type :=
| NotJSON (raw : string)       (* [JSON.parse] throws a [SyntaxError] *)
| ArrayJSON (items : list A)   (* the text of an array of records *)
| OtherJSON.                   (* valid JSON that is not an array *)
Arguments NotJSON {A} raw.
Arguments ArrayJSON {A} items.
Arguments OtherJSON {A}.

(** What [JSON.parse] returns, seen through the cast [as T[]]. *)
Inductive JSValue (A : Type) : Type :=
| VArray (items : list A)
| VNotArray.
Arguments VArray {A} items.
Arguments VNotArray {A}.

(** [JSON.parse(stored)]; [JSON.parse(null)] is [null]. *)
Definition JSON_parse {S A} (stored : option (StoredText A))
  : Eff S (JSValue A) :=
  match stored with
  | Some (NotJSON _) => ethrow SyntaxError
  | Some (ArrayJSON items) => eret (VArray items)
  | Some OtherJSON => eret VNotArray
  | None => eret VNotArray
  end.

Definition JSON_stringify {A} (items : list A) : StoredText A :=
  ArrayJSON items.

(** [!stored] for the result of [getItem]: [null] and the empty string. *)
Definition falsy {A} (stored : option (StoredText A)) : bool :=
  match stored with
  | None => true
  | Some (NotJSON raw) => JS.isEmpty raw
  | Some _ => false
  end.

(** ** The loan record ([src/types/loan.ts] is not among the sources) *)

Module Loan.

(** Modelled from the spec: the file [src/types/loan.ts] is missing; the
    status is one of [pending], [approved], [rejected] (data model). *)
Inductive LoanStatus : Type := pending | approved | rejected.

(** Modelled from the spec: the file [src/types/loan.ts] is missing; the
    literal a status is at run time, as [LoanList.vue] compares and shows
    it. *)
Definition status_literal (s : LoanStatus) : string :=
  match s with
  | pending => "pending"
  | approved => "approved"
  | rejected => "rejected"
  end.

(** Modelled from the spec: the file [src/types/loan.ts] is missing;
    [===] on two statuses. *)
Definition status_eqb (a b : LoanStatus) : bool :=
  match a, b with
  | pending, pending | approved, approved | rejected, rejected => true
  | _, _ => false
  end.

(** Modelled from the spec: the file [src/types/loan.ts] is missing; the
    fields are those of the data model and of the records in
    [tests/LoanList.test.ts]. *)
Record LoanApplication : Type := mkLoan {
  id : string;
  applicantName : string;
  amount : Q;
  termMonths : Z;
  interestRate : Q;
  status : LoanStatus;
  createdAt : string
}.

(** Modelled from the spec: the file [src/types/loan.ts] is missing; the
    record after [loan.status = s]. *)
Definition with_status (s : LoanStatus) (l : LoanApplication)
  : LoanApplication :=
  {| id := id l; applicantName := applicantName l; amount := amount l;
     termMonths := termMonths l; interestRate := interestRate l;
     status := s; createdAt := createdAt l |}.

End Loan.

(** [localStorage], at the two keys the application uses:
    [tredgate_loans] and [tredgate_audit_logs].  [None] is a key that is not
    set ([getItem] returns [null]). *)
Record localStorage : Type := mkStorage {
  tredgate_loans : option (StoredText Loan.LoanApplication);
  tredgate_audit_logs : option (StoredText AuditLogEntry)
}.

Definition empty_storage : localStorage :=
  {| tredgate_loans := None; tredgate_audit_logs := None |}.

(** ** What a call reads from the platform *)

(** [generateId] reads [Date.now()] and [Math.random()]; the constructor then
    reads the clock again for [new Date()].  [random36] is the text of
    [Math.random().toString(36)], such as ["0.4fzyo82mvyr"].
    [localStorage.setItem] asks the browser whether the store, as the call
    would leave it, is within the quota: [setItem_accepts] is the answer,
    for each store. *)
Record Env : Type := mkEnv {
  Date_now : Z;
  random36 : string;
  new_Date : Z;
  setItem_accepts : localStorage -> bool
}.

(** ** [src/services/auditLogService.ts]: identifiers and constructors *)

Definition STORAGE_KEY : string := "tredgate_audit_logs".

Definition generateId (env : Env) : string :=
  JS.toString36 (Date_now env) ++ JS.substring 2 9 (random36 env).

Definition createLoanCreatedLog (env : Env) (input : CreateLoanLogInput)
  : AuditLogEntry :=
  {| id := generateId env;
     timestamp := JS.toISOString (new_Date env);
     actionType := loan_created;
     loanId := cl_loanId input;
     applicantName := cl_applicantName input;
     previousStatus := None;
     newStatus := None;
     loanAmount := cl_loanAmount input;
     decisionMethod := None |}.

Definition createStatusChangeLog (env : Env) (input : StatusChangeLogInput)
  : AuditLogEntry :=
  {| id := generateId env;
     timestamp := JS.toISOString (new_Date env);
     actionType :=
       if sc_isAuto input then status_changed_auto else status_changed_manual;
     loanId := sc_loanId input;
     applicantName := sc_applicantName input;
     previousStatus := Some (sc_previousStatus input);
     newStatus := Some (sc_newStatus input);
     loanAmount := sc_loanAmount input;
     decisionMethod := Some (if sc_isAuto input then "auto" else "manual") |}.

Definition createLoanDeletedLog (env : Env) (input : DeleteLoanLogInput)
  : AuditLogEntry :=
  {| id := generateId env;
     timestamp := JS.toISOString (new_Date env);
     actionType := loan_deleted;
     loanId := dl_loanId input;
     applicantName := dl_applicantName input;
     previousStatus := Some (dl_status input);
     newStatus := None;
     loanAmount := dl_loanAmount input;
     decisionMethod := None |}.

(** The field-presence rule of the data model, by action type. *)
Definition field_presence (e : AuditLogEntry) : Prop :=
  match actionType e with
  | loan_created =>
      previousStatus e = None /\ newStatus e = None /\ decisionMethod e = None
  | status_changed_manual | status_changed_auto =>
      is_Some (previousStatus e) /\ is_Some (newStatus e)
      /\ is_Some (decisionMethod e)
  | loan_deleted =>
      is_Some (previousStatus e) /\ newStatus e = None
      /\ decisionMethod e = None
  end.

(** ** [src/services/auditLogService.ts]: load, save, append *)

Local Open Scope eff_scope.

(** [localStorage.getItem(STORAGE_KEY)]. *)
Definition getItem_audit
  : Eff localStorage (option (StoredText AuditLogEntry)) :=
  fun ls => (Normal (tredgate_audit_logs ls), ls).

(** [localStorage.setItem(STORAGE_KEY, text)]: the text is stored when the
    browser accepts the store it gives; otherwise the call throws a
    [QuotaExceededError] and the store is as it was. *)
Definition setItem_audit (env : Env) (text : StoredText AuditLogEntry)
  : Eff localStorage unit :=
  fun ls =>
    let ls' := {| tredgate_loans := tredgate_loans ls;
                  tredgate_audit_logs := Some text |} in
    if setItem_accepts env ls' then (Normal tt, ls')
    else (Throw QuotaExceededError, ls).

Definition getAuditLogs : Eff localStorage (JSValue AuditLogEntry) :=
  try_catch
    (let! stored := getItem_audit in
     if falsy stored then eret (VArray [])
     else JSON_parse stored)
    (fun _ => eret (VArray [])).

(** No [try] here: what [setItem] throws, [saveAuditLogs] throws. *)
Definition saveAuditLogs (env : Env) (logs : list AuditLogEntry)
  : Eff localStorage unit :=
  setItem_audit env (JSON_stringify logs).

(** [logs.push(entry)] throws a [TypeError] when [logs] is not an array. *)
Definition push {S A} (v : JSValue A) (x : A) : Eff S (list A) :=
  match v with
  | VArray items => eret (items ++ [x])%list
  | VNotArray => ethrow TypeError
  end.

Definition addAuditLog (env : Env) (entry : AuditLogEntry)
  : Eff localStorage unit :=
  let! logs := getAuditLogs in
  let! logs := push logs entry in
  saveAuditLogs env logs.

(** ** [src/services/auditLogService.ts]: filter, search, sort, query *)

(** [Array.prototype.sort] with a comparison function: a result that is NaN
    counts as [+0]; the sort is stable.  The model inserts each element, from
    the last to the first, before the first element it does not have to
    follow.

    The language fixes the result of [sort] only when the comparison
    function is consistent on the items; here, when every timestamp is a
    date.  The result is then the one stable arrangement, which the
    insertion gives ([Array_sort_unique] below).  When a comparison is NaN
    the order is the engine's choice and the insertion gives one of the
    arrangements it may take: a statement below that speaks of the order
    of a result assumes timestamps that are dates, and the others use only
    that the result is a permutation of the items. *)
Definition sortCompare {A} (comparefn : A -> A -> option Z) (x y : A) : Z :=
  match comparefn x y with
  | Some v => v
  | None => 0
  end.

Fixpoint sort_insert {A} (comparefn : A -> A -> option Z) (x : A)
  (sorted : list A) : list A :=
  match sorted with
  | [] => [x]
  | y :: rest =>
      if 0 <? sortCompare comparefn x y
      then y :: sort_insert comparefn x rest
      else x :: sorted
  end.

Definition Array_sort {A} (comparefn : A -> A -> option Z) (items : list A)
  : list A :=
  fold_right (sort_insert comparefn) [] items.

(** The predicate of the filter stage. *)
Definition hasActionType (wanted : string) (log : AuditLogEntry) : bool :=
  String.eqb (actionType_literal (actionType log)) wanted.

(** The predicate of the search stage, for the prepared [term]. *)
Definition matchesTerm (term : string) (log : AuditLogEntry) : bool :=
  JS.includes (JS.toLowerCase (applicantName log)) term
  || JS.includes (JS.toLowerCase (loanId log)) term.

Definition filterLogsByActionType (logs : list AuditLogEntry)
  (wanted : string) : list AuditLogEntry :=
  if JS.isEmpty wanted || String.eqb wanted "all" then logs
  else List.filter (hasActionType wanted) logs.

Definition searchLogs (logs : list AuditLogEntry) (searchTerm : string)
  : list AuditLogEntry :=
  if JS.isEmpty searchTerm || String.eqb (JS.trim searchTerm) "" then logs
  else
    let term := JS.trim (JS.toLowerCase searchTerm) in
    List.filter (matchesTerm term) logs.

Section Sorting.

(** [new Date(s).getTime()]: the time value of a date text in
    milliseconds, [None] when the text is no date (the time value is NaN).
    Which texts are dates is the platform's matter. *)
Variable Date_getTime : string -> option Z.

(** [new Date(b.timestamp).getTime() - new Date(a.timestamp).getTime()];
    NaN when either side is. *)
Definition compareTimestamps (a b : AuditLogEntry) : option Z :=
  match Date_getTime (timestamp b), Date_getTime (timestamp a) with
  | Some tb, Some ta => Some (tb - ta)
  | _, _ => None
  end.

Definition sortLogsByTimestamp (logs : list AuditLogEntry)
  : list AuditLogEntry :=
  Array_sort compareTimestamps logs.

Definition processAuditLogs (logs : list AuditLogEntry)
  (wanted searchTerm : string) : list AuditLogEntry :=
  let processed := logs in
  let processed := filterLogsByActionType processed wanted in
  let processed := searchLogs processed searchTerm in
  let processed := sortLogsByTimestamp processed in
  processed.

End Sorting.

(** A reading of the format [toISOString] writes,
    [YYYY-MM-DDTHH:mm:ss.sssZ] with a calendar date that exists; any other
    text is taken as no date. *)
Module ISO.

Definition digit (c : ascii) : option Z :=
  let n := JS.code c in
  if ((48 <=? n) && (n <=? 57))%N then Some (Z.of_N n - 48) else None.

(** Reads [n] digits; gives their value and the rest of the text. *)
Fixpoint digits (n : nat) (acc : Z) (s : string) : option (Z * string) :=
  match n with
  | O => Some (acc, s)
  | S n' =>
      match s with
      | String c s' =>
          match digit c with
          | Some d => digits n' (10 * acc + d) s'
          | None => None
          end
      | EmptyString => None
      end
  end.

Definition expect (c : ascii) (s : string) : option string :=
  match s with
  | String c' s' => if Ascii.eqb c c' then Some s' else None
  | EmptyString => None
  end.

Definition isLeap (y : Z) : bool :=
  ((y mod 4 =? 0) && negb (y mod 100 =? 0)) || (y mod 400 =? 0).

Definition daysInMonth (y m : Z) : Z :=
  if m =? 2 then (if isLeap y then 29 else 28)
  else if (m =? 4) || (m =? 6) || (m =? 9) || (m =? 11) then 30 else 31.

Definition getTime (s : string) : option Z :=
  '(y, s) ← digits 4 0 s; s ← expect "-"%char s;
  '(m, s) ← digits 2 0 s; s ← expect "-"%char s;
  '(d, s) ← digits 2 0 s; s ← expect "T"%char s;
  '(hh, s) ← digits 2 0 s; s ← expect ":"%char s;
  '(mm, s) ← digits 2 0 s; s ← expect ":"%char s;
  '(ss, s) ← digits 2 0 s; s ← expect "."%char s;
  '(ms, s) ← digits 3 0 s; s ← expect "Z"%char s;
  if JS.isEmpty s && (1 <=? m) && (m <=? 12) && (1 <=? d)
     && (d <=? daysInMonth y m) && (hh <=? 23) && (mm <=? 59) && (ss <=? 59)
  then Some (JS.days_from_civil y m d * 86400000
             + hh * 3600000 + mm * 60000 + ss * 1000 + ms)
  else None.

End ISO.

(** ** Arrays as objects: the same functions on references *)

(** Each array lives in a store; a function receives and returns references.
    [filter] and the spread [[...logs]] allocate, [sort] overwrites the array
    it is called on, and [return logs] hands back the reference it got. *)
Module Heap.

Abbreviation ref := nat.
Abbreviation heap := (list (list AuditLogEntry)).
Definition M (A : Type) : Type := heap -> A * heap.

Definition ret {A} (a : A) : M A := fun h => (a, h).
Definition bind {A B} (m : M A) (k : A -> M B) : M B :=
  fun h => let '(a, h') := m h in k a h'.

Declare Scope heap_scope.
Delimit Scope heap_scope with heap.
Notation "'let*' x ':=' m 'in' k" := (bind m (fun x => k))
  (at level 10, x name, m at level 100, k at level 200,
   format "'[v' 'let*'  x  ':='  m  'in' '/' k ']'") : heap_scope.
Local Open Scope heap_scope.

Definition alloc (items : list AuditLogEntry) : M ref :=
  fun h => (length h, (h ++ [items])%list).
Definition read (r : ref) : M (list AuditLogEntry) :=
  fun h => (default [] (h !! r), h).
Definition write (r : ref) (items : list AuditLogEntry) : M unit :=
  fun h => (tt, <[r := items]> h).

(** [logs.filter(p)]: a new array. *)
Definition Array_filter (p : AuditLogEntry -> bool) (logs : ref) : M ref :=
  let* items := read logs in alloc (List.filter p items).

(** [[...logs]]: a new array with the same elements. *)
Definition spread (logs : ref) : M ref :=
  let* items := read logs in alloc items.

(** [a.sort(comparefn)]: sorts [a] in place and returns [a]. *)
Definition Array_sort_in_place
  (comparefn : AuditLogEntry -> AuditLogEntry -> option Z) (a : ref)
  : M ref :=
  let* items := read a in
  let* done := write a (Array_sort comparefn items) in
  ret a.

Definition filterLogsByActionType (logs : ref) (wanted : string) : M ref :=
  if JS.isEmpty wanted || String.eqb wanted "all" then ret logs
  else Array_filter (hasActionType wanted) logs.

Definition searchLogs (logs : ref) (searchTerm : string) : M ref :=
  if JS.isEmpty searchTerm || String.eqb (JS.trim searchTerm) "" then ret logs
  else
    let term := JS.trim (JS.toLowerCase searchTerm) in
    Array_filter (matchesTerm term) logs.

Definition sortLogsByTimestamp (Date_getTime : string -> option Z)
  (logs : ref) : M ref :=
  let* copy := spread logs in
  Array_sort_in_place (compareTimestamps Date_getTime) copy.

Definition processAuditLogs (Date_getTime : string -> option Z)
  (logs : ref) (wanted searchTerm : string) : M ref :=
  let processed := logs in
  let* processed := filterLogsByActionType processed wanted in
  let* processed := searchLogs processed searchTerm in
  let* processed := sortLogsByTimestamp Date_getTime processed in
  ret processed.

End Heap.

(** ** The loan service ([src/services/loanService.ts] is not among the
       sources) *)

Module LoanService.
Import Loan.

(** Modelled from the spec: [loanService.ts] is missing.  The input of
    [create]: [{applicantName, amount, termMonths, interestRate}]. *)
Record CreateLoanInput : Type := mkInput {
  in_applicantName : string;
  in_amount : Q;
  in_termMonths : Z;
  in_interestRate : Q
}.

(** Modelled from the spec: [loanService.ts] is missing.  Reading and
    writing the key [tredgate_loans] of the persisted state layout. *)
Definition getItem_loans
  : Eff localStorage (option (StoredText LoanApplication)) :=
  fun ls => (Normal (tredgate_loans ls), ls).

(** Modelled from the spec: [loanService.ts] is missing.  See
    [getItem_loans]; the spec names no failure of a write of the loans. *)
Definition setItem_loans (text : StoredText LoanApplication)
  : Eff localStorage unit :=
  fun ls => (Normal tt, {| tredgate_loans := Some text;
                           tredgate_audit_logs := tredgate_audit_logs ls |}).

(** Modelled from the spec: [loanService.ts] is missing.  Persisted state
    layout: missing or corrupt data under [tredgate_loans] is an empty
    collection; the shape is that of [getAuditLogs]. *)
Definition getLoans : Eff localStorage (JSValue LoanApplication) :=
  try_catch
    (let! stored := getItem_loans in
     if falsy stored then eret (VArray [])
     else JSON_parse stored)
    (fun _ => eret (VArray [])).

(** Modelled from the spec: [loanService.ts] is missing.  Every write
    stores the whole collection. *)
Definition saveLoans (loans : list LoanApplication) : Eff localStorage unit :=
  setItem_loans (JSON_stringify loans).

(** Modelled from the spec: [loanService.ts] is missing.  A method of
    arrays ([find], [filter]) called on the loaded value fails on what is
    not an array, as [push] does in [addAuditLog]. *)
Definition items {S A} (v : JSValue A) : Eff S (list A) :=
  match v with
  | VArray l => eret l
  | VNotArray => ethrow TypeError
  end.

(** Modelled from the spec: [loanService.ts] is missing.  The record is
    the one "with [id]". *)
Definition hasId (wanted : string) (loan : LoanApplication) : bool :=
  String.eqb (id loan) wanted.

(** Modelled from the spec: [loanService.ts] is missing.  The four checks
    of [create], in the order name, amount, term, rate; the first that
    fails gives the message. *)
Definition validate (input : CreateLoanInput) : option string :=
  if JS.isEmpty (JS.trim (in_applicantName input))
  then Some "Applicant name is required"
  else if Qle_bool (in_amount input) 0
  then Some "Amount must be greater than 0"
  else if in_termMonths input <=? 0
  then Some "Term months must be greater than 0"
  else if negb (Qle_bool 0 (in_interestRate input))
  then Some "Interest rate is required and cannot be negative"
  else None.

(** Modelled from the spec: [loanService.ts] is missing.  [create]:
    validates, then appends a record with a generated id, status
    [pending] and the creation time, stores the collection and returns
    the record. *)
Definition create (env : Env) (input : CreateLoanInput)
  : Eff localStorage LoanApplication :=
  match validate input with
  | Some message => ethrow (ValidationError message)
  | None =>
      let! loans := getLoans in
      let loan :=
        {| id := generateId env;
           applicantName := in_applicantName input;
           amount := in_amount input;
           termMonths := in_termMonths input;
           interestRate := in_interestRate input;
           status := pending;
           createdAt := JS.toISOString (new_Date env) |} in
      let! loans := push loans loan in
      saveLoans loans ;;
      eret loan
  end.

(** Modelled from the spec: [loanService.ts] is missing.  The record with
    the given id, or [NotFoundError] when no record has it. *)
Definition findLoan (wanted : string) : Eff localStorage LoanApplication :=
  let! loans := getLoans in
  let! loans := items loans in
  match List.find (hasId wanted) loans with
  | Some loan => eret loan
  | None => ethrow NotFoundError
  end.

(** Modelled from the spec: [loanService.ts] is missing.  "Mutates
    [status] in place": [loan.status = s] on the record found, the first
    with the id. *)
Fixpoint setStatus (wanted : string) (s : LoanStatus)
  (loans : list LoanApplication) : list LoanApplication :=
  match loans with
  | [] => []
  | loan :: rest =>
      if hasId wanted loan then with_status s loan :: rest
      else loan :: setStatus wanted s rest
  end.

(** Modelled from the spec: [loanService.ts] is missing.  "Removes the
    record from the collection": the record found, the first with the id. *)
Fixpoint remove (wanted : string) (loans : list LoanApplication)
  : list LoanApplication :=
  match loans with
  | [] => []
  | loan :: rest =>
      if hasId wanted loan then rest else loan :: remove wanted rest
  end.

(** Modelled from the spec: [loanService.ts] is missing.  [updateStatus]:
    fails when no record has the id; otherwise sets the status in place
    and stores the collection.  As the spec reports of the reference
    behaviour, the current status is not looked at. *)
Definition updateStatus (wanted : string) (newStatus : LoanStatus)
  : Eff localStorage unit :=
  let! loans := getLoans in
  let! loans := items loans in
  match List.find (hasId wanted) loans with
  | None => ethrow NotFoundError
  | Some _ => saveLoans (setStatus wanted newStatus loans)
  end.

(** Modelled from the spec: [loanService.ts] is missing.  The decision
    rule: [approved] if [amount <= 100000 AND termMonths <= 60], else
    [rejected]. *)
Definition decide (loan : LoanApplication) : LoanStatus :=
  if Qle_bool (amount loan) 100000 && (termMonths loan <=? 60)
  then approved else rejected.

(** Modelled from the spec: [loanService.ts] is missing.  [autoDecide]:
    fails when no record has the id; otherwise applies the decision rule,
    stores as [updateStatus] does, and returns the old and the new
    status. *)
Definition autoDecide (wanted : string)
  : Eff localStorage (LoanStatus * LoanStatus) :=
  let! loans := getLoans in
  let! loans := items loans in
  match List.find (hasId wanted) loans with
  | None => ethrow NotFoundError
  | Some loan =>
      let previous := status loan in
      let new := decide loan in
      saveLoans (setStatus wanted new loans) ;;
      eret (previous, new)
  end.

(** Modelled from the spec: [loanService.ts] is missing.  [delete]: fails
    when no record has the id; otherwise removes the record, stores the
    collection and returns the removed record. *)
Definition delete (wanted : string) : Eff localStorage LoanApplication :=
  let! loans := getLoans in
  let! loans := items loans in
  match List.find (hasId wanted) loans with
  | None => ethrow NotFoundError
  | Some loan =>
      saveLoans (remove wanted loans) ;;
      eret loan
  end.

(** Modelled from the spec: [loanService.ts] is missing.
    [calculateMonthlyPayment(loan)] of the domain service:
    [monthly = amount / termMonths] when [interestRate == 0]; otherwise
    [monthly = amount * r * (1+r)^n / ((1+r)^n - 1)] where
    [r = interestRate / 12] and [n = termMonths].  The numbers are the
    exact ones. *)
Definition calculateMonthlyPayment (loan : LoanApplication) : Q :=
  if Qeq_bool (interestRate loan) 0
  then (amount loan / inject_Z (termMonths loan))%Q
  else
    let r := (interestRate loan / 12)%Q in
    let n := termMonths loan in
    (amount loan * r * (1 + r) ^ n / ((1 + r) ^ n - 1))%Q.

(** *** The functions [App.vue] and [LoanForm.vue] import *)

(** Modelled from the spec: [loanService.ts] is missing.  The handlers of
    [App.vue] call one imported function and refresh, so the flow of the
    system overview (the domain operation stores the loans, the audit entry
    is constructed, the audit log service stores it) is what the imported
    function does.  Here for [create]. *)
Definition createLoanApplication (envLoan envLog : Env)
  (input : CreateLoanInput) : Eff localStorage LoanApplication :=
  let! loan := create envLoan input in
  addAuditLog envLog (createLoanCreatedLog envLog
    {| cl_loanId := id loan;
       cl_applicantName := applicantName loan;
       cl_loanAmount := amount loan |}) ;;
  eret loan.

(** Modelled from the spec: [loanService.ts] is missing.  As
    [createLoanApplication], for [updateStatus]: the entry carries the
    status the record had and the one it is given, method [manual]. *)
Definition updateLoanStatus (envLog : Env) (wanted : string)
  (newStatus : LoanStatus) : Eff localStorage unit :=
  let! loan := findLoan wanted in
  updateStatus wanted newStatus ;;
  addAuditLog envLog (createStatusChangeLog envLog
    {| sc_loanId := id loan;
       sc_applicantName := applicantName loan;
       sc_loanAmount := amount loan;
       sc_previousStatus := status_literal (status loan);
       sc_newStatus := status_literal newStatus;
       sc_isAuto := false |}).

(** Modelled from the spec: [loanService.ts] is missing.  As
    [createLoanApplication], for [autoDecide]: the entry carries the old
    and the new status that [autoDecide] returns, method [auto]. *)
Definition autoDecideLoan (envLog : Env) (wanted : string)
  : Eff localStorage (LoanStatus * LoanStatus) :=
  let! loan := findLoan wanted in
  let! change := autoDecide wanted in
  addAuditLog envLog (createStatusChangeLog envLog
    {| sc_loanId := id loan;
       sc_applicantName := applicantName loan;
       sc_loanAmount := amount loan;
       sc_previousStatus := status_literal (fst change);
       sc_newStatus := status_literal (snd change);
       sc_isAuto := true |}) ;;
  eret change.

(** Modelled from the spec: [loanService.ts] is missing.  As
    [createLoanApplication], for [delete]: the entry carries the last
    status of the removed record. *)
Definition deleteLoan (envLog : Env) (wanted : string)
  : Eff localStorage LoanApplication :=
  let! loan := delete wanted in
  addAuditLog envLog (createLoanDeletedLog envLog
    {| dl_loanId := id loan;
       dl_applicantName := applicantName loan;
       dl_loanAmount := amount loan;
       dl_status := status_literal (status loan) |}) ;;
  eret loan.

End LoanService.

(** ** [src/App.vue] *)

Module App.
Import Loan.

Inductive View : Type := loans_view | audit_view.

(** The store, and the refs [loans] and [currentView]. *)
Record State : Type := mkState {
  storage : localStorage;
  loans : JSValue LoanApplication;
  currentView : View
}.

(** A call of a service function from the component. *)
Definition service {A} (m : Eff localStorage A) : Eff State A :=
  fun st =>
    let '(c, ls) := m (storage st) in
    (c, {| storage := ls; loans := loans st;
           currentView := currentView st |}).

Definition set_loans (v : JSValue LoanApplication) : Eff State unit :=
  fun st => (Normal tt, {| storage := storage st; loans := v;
                           currentView := currentView st |}).

Definition set_currentView (v : View) : Eff State unit :=
  fun st => (Normal tt, {| storage := storage st; loans := loans st;
                           currentView := v |}).

Definition refreshLoans : Eff State unit :=
  let! v := service LoanService.getLoans in
  set_loans v.

Definition showLoansView : Eff State unit := set_currentView loans_view.
Definition showAuditView : Eff State unit := set_currentView audit_view.

Definition handleApprove (env : Env) (id : string) : Eff State unit :=
  service (LoanService.updateLoanStatus env id approved) ;;
  refreshLoans.

Definition handleReject (env : Env) (id : string) : Eff State unit :=
  service (LoanService.updateLoanStatus env id rejected) ;;
  refreshLoans.

Definition handleAutoDecide (env : Env) (id : string) : Eff State unit :=
  service (LoanService.autoDecideLoan env id) ;;
  refreshLoans.

Definition handleDelete (env : Env) (id : string) : Eff State unit :=
  service (LoanService.deleteLoan env id) ;;
  refreshLoans.

(** The component as created, and after [onMounted]. *)
Definition created (ls : localStorage) : State :=
  {| storage := ls; loans := VArray []; currentView := loans_view |}.

Definition mounted (ls : localStorage) : State :=
  final (refreshLoans (created ls)).

End App.

(** ** [src/components/LoanForm.vue] (not among the sources) *)

Module LoanForm.

(** Modelled from the spec: [LoanForm.vue] is missing.  Submitting calls
    [createLoanApplication] with the trimmed name (as
    [tests/LoanForm.test.ts] expects); on success the form emits
    [created], which [App.vue] handles with [refreshLoans]; a thrown
    error is caught and its message shown. *)
Definition handleSubmit (envLoan envLog : Env)
  (input : LoanService.CreateLoanInput) : Eff App.State unit :=
  try_catch
    (App.service (LoanService.createLoanApplication envLoan envLog
       {| LoanService.in_applicantName :=
            JS.trim (LoanService.in_applicantName input);
          LoanService.in_amount := LoanService.in_amount input;
          LoanService.in_termMonths := LoanService.in_termMonths input;
          LoanService.in_interestRate :=
            LoanService.in_interestRate input |}) ;;
     App.refreshLoans)
    (fun _ => eret tt).

End LoanForm.

(** ** [src/components/LoanList.vue]: the events of a row *)

Module LoanList.
Import Loan.

Inductive Emit : Type :=
| approve (id : string)
| reject (id : string)
| autoDecide (id : string)
| delete (id : string).

(** The buttons of one row: the three status buttons are rendered with
    [v-if="loan.status === 'pending'"], the delete button always; its
    click opens the confirm dialog, and confirming emits [delete] with the
    id of the row. *)
Definition row_emits (loan : LoanApplication) (e : Emit) : bool :=
  match e with
  | approve i | reject i | autoDecide i =>
      String.eqb i (id loan) && status_eqb (status loan) pending
  | delete i => String.eqb i (id loan)
  end.

(** The rows are those of the prop [loans]. *)
Definition emits (loans : JSValue LoanApplication) (e : Emit) : bool :=
  match loans with
  | VArray rows => existsb (fun loan => row_emits loan e) rows
  | VNotArray => false
  end.

End LoanList.

(** The value a load gives for what is under the key: the array, the
    empty array when the key is unset or holds no JSON, and otherwise what
    the JSON is. *)
Definition loaded {A} (cell : option (StoredText A)) : JSValue A :=
  match cell with
  | Some (ArrayJSON l) => VArray l
  | Some OtherJSON => VNotArray
  | Some (NotJSON _) | None => VArray []
  end.

(** The elements of a loaded value. *)
Definition elements {A} (v : JSValue A) : list A :=
  match v with
  | VArray l => l
  | VNotArray => []
  end.

(** ** The application as a transition system *)

Module UI.
Import Loan.

Inductive Event : Type :=
| Submit (envLoan envLog : Env) (input : LoanService.CreateLoanInput)
| Row (env : Env) (e : LoanList.Emit)
| ShowLoans
| ShowAudit.

(** The loans as [getLoans] gives them. *)
Definition stored_loans (ls : localStorage) : list LoanApplication :=
  elements (loaded (tredgate_loans ls)).

Definition ids (loans : list LoanApplication) : list string :=
  map id loans.

(** Modelled from the spec: [loanService.ts] is missing.  [create]
    "assigns a fresh unique id": the id it generates is the id of no stored
    loan. *)
Definition fresh (i : string) (loans : list LoanApplication) : bool :=
  negb (existsb (String.eqb i) (ids loans)).

(** The form and the list are rendered in the loans view only
    ([v-if="currentView === 'loans'"]); a submission is taken with readings
    of the clock and of [Math.random] that give a fresh id. *)
Definition enabled (st : App.State) (ev : Event) : bool :=
  match ev with
  | Submit envLoan _ _ =>
      match App.currentView st with
      | App.loans_view =>
          fresh (generateId envLoan) (stored_loans (App.storage st))
      | App.audit_view => false
      end
  | Row _ e =>
      match App.currentView st with
      | App.loans_view => LoanList.emits (App.loans st) e
      | App.audit_view => false
      end
  | ShowLoans | ShowAudit => true
  end.

Definition handle (ev : Event) : Eff App.State unit :=
  match ev with
  | Submit envLoan envLog input => LoanForm.handleSubmit envLoan envLog input
  | Row env (LoanList.approve i) => App.handleApprove env i
  | Row env (LoanList.reject i) => App.handleReject env i
  | Row env (LoanList.autoDecide i) => App.handleAutoDecide env i
  | Row env (LoanList.delete i) => App.handleDelete env i
  | ShowLoans => App.showLoansView
  | ShowAudit => App.showAuditView
  end.

(** One user action; an error a handler throws is reported and the
    application goes on from the state the handler left. *)
Definition step (st : App.State) (ev : Event) (st' : App.State) : Prop :=
  enabled st ev = true /\ st' = final (handle ev st).


(** A store on which [addAuditLog] can append: the audit key is unset,
    holds an array or holds text that is not JSON; and no two stored loans
    share an id. *)
Definition well_formed (ls : localStorage) : Prop :=
  tredgate_audit_logs ls <> Some OtherJSON
  /\ List.NoDup (ids (stored_loans ls)).



(** Runs a list of events from a state, skipping none: [None] when an
    event is not enabled. *)
Fixpoint run (evs : list Event) (st : App.State) : option App.State :=
  match evs with
  | [] => Some st
  | ev :: rest =>
      if enabled st ev then run rest (final (handle ev st)) else None
  end.

End UI.

(** ** Vocabulary of the statements about the query *)

(** The entry has a timestamp that is a date. *)
Definition valid_timestamp (Date_getTime : string -> option Z)
  (e : AuditLogEntry) : Prop :=
  is_Some (Date_getTime (timestamp e)).

(** [a] may stand before [b] in a newest-first list: both timestamps are
    dates and [b] is not later than [a]. *)
Definition not_older (Date_getTime : string -> option Z)
  (a b : AuditLogEntry) : Prop :=
  exists ta tb,
    Date_getTime (timestamp a) = Some ta
    /\ Date_getTime (timestamp b) = Some tb /\ tb <= ta.

(** The entry's timestamp is the time [t]. *)
Definition at_time (Date_getTime : string -> option Z) (t : Z)
  (e : AuditLogEntry) : bool :=
  match Date_getTime (timestamp e) with
  | Some t' => t' =? t
  | None => false
  end.

(** What the filter stage and the search stage keep, as one predicate. *)
Definition query_keeps (wanted searchTerm : string) (e : AuditLogEntry)
  : bool :=
  (JS.isEmpty wanted || String.eqb wanted "all" || hasActionType wanted e)
  && (JS.isEmpty searchTerm || String.eqb (JS.trim searchTerm) ""
      || matchesTerm (JS.trim (JS.toLowerCase searchTerm)) e).

(** A function on references computes [f] and leaves every array of the
    store as it was: from a store where [logs] holds [items], it returns a
    reference that holds [f items], and each reference that held an array
    before still holds that array. *)
Definition computes (m : Heap.M Heap.ref)
  (f : list AuditLogEntry -> list AuditLogEntry) (logs : Heap.ref) : Prop :=
  forall (h : Heap.heap) (items : list AuditLogEntry),
    h !! logs = Some items ->
    exists r h',
      m h = (r, h')
      /\ h' !! r = Some (f items)
      /\ (forall r0 x, h !! r0 = Some x -> h' !! r0 = Some x).

(** The audit log as [getAuditLogs] gives it. *)
Definition audit_log (ls : localStorage) : list AuditLogEntry :=
  elements (loaded (tredgate_audit_logs ls)).


(** The entry that matches each event. *)
Definition created_entry (env : Env) (loan : Loan.LoanApplication)
  : AuditLogEntry :=
  createLoanCreatedLog env
    {| cl_loanId := Loan.id loan;
       cl_applicantName := Loan.applicantName loan;
       cl_loanAmount := Loan.amount loan |}.

Definition status_entry (env : Env) (loan : Loan.LoanApplication)
  (new : Loan.LoanStatus) (isAuto : bool) : AuditLogEntry :=
  createStatusChangeLog env
    {| sc_loanId := Loan.id loan;
       sc_applicantName := Loan.applicantName loan;
       sc_loanAmount := Loan.amount loan;
       sc_previousStatus := Loan.status_literal (Loan.status loan);
       sc_newStatus := Loan.status_literal new;
       sc_isAuto := isAuto |}.


(** The store with the entry appended to the audit log. *)
Definition appended (ls : localStorage) (entry : AuditLogEntry)
  : localStorage :=
  {| tredgate_loans := tredgate_loans ls;
     tredgate_audit_logs :=
       Some (ArrayJSON (audit_log ls ++ [entry])%list) |}.





(** ** Sample data *)

(** The store of [tests/auditLogService.test.ts], "returns empty array when
    stored data is invalid". *)
Definition invalid_json_store : localStorage :=
  {| tredgate_loans := None;
     tredgate_audit_logs := Some (NotJSON "invalid-json") |}.

(** The entries of the query-composition property: Alice Smith created at
    T1, Bob Jones created at T2, T1 < T2. *)
Definition alice_entry : AuditLogEntry :=
  {| id := "1"; timestamp := "2024-01-01T00:00:00.000Z";
     actionType := loan_created; loanId := "loan-abc";
     applicantName := "Alice Smith"; previousStatus := None;
     newStatus := None; loanAmount := 10000; decisionMethod := None |}.

Definition bob_entry : AuditLogEntry :=
  {| id := "2"; timestamp := "2024-01-02T00:00:00.000Z";
     actionType := loan_created; loanId := "loan-xyz";
     applicantName := "Bob Jones"; previousStatus := None;
     newStatus := None; loanAmount := 20000; decisionMethod := None |}.

(** Two entries of the same millisecond, the second a manual approval. *)
Definition alice_approved_entry : AuditLogEntry :=
  {| id := "3"; timestamp := "2024-01-01T00:00:00.000Z";
     actionType := status_changed_manual; loanId := "loan-abc";
     applicantName := "Alice Smith"; previousStatus := Some "pending";
     newStatus := Some "approved"; loanAmount := 10000;
     decisionMethod := Some "manual" |}.

Definition sample_logs : list AuditLogEntry :=
  [alice_entry; bob_entry; alice_approved_entry].

(** A store of arrays with [sample_logs] at reference 0. *)
Definition sample_heap : Heap.heap := [sample_logs].

(** The first loan of [tests/LoanList.test.ts]: 50000 at 0.08 over 24
    months. *)
Definition john_doe_loan : Loan.LoanApplication :=
  {| Loan.id := "1"; Loan.applicantName := "John Doe"; Loan.amount := 50000;
     Loan.termMonths := 24; Loan.interestRate := 8 # 100;
     Loan.status := Loan.pending;
     Loan.createdAt := "2024-01-01T00:00:00.000Z" |}.

(** The loan of the e2e test "zero interest": 50000 over 36 months. *)
Definition zero_interest_loan : Loan.LoanApplication :=
  {| Loan.id := "2"; Loan.applicantName := "Zero Interest User";
     Loan.amount := 50000; Loan.termMonths := 36; Loan.interestRate := 0;
     Loan.status := Loan.pending;
     Loan.createdAt := "2024-01-01T00:00:00.000Z" |}.

(** A pending loan with the given amount and term. *)
Definition pending_loan (amount : Q) (termMonths : Z) : Loan.LoanApplication :=
  {| Loan.id := "b"; Loan.applicantName := "Boundary User";
     Loan.amount := amount; Loan.termMonths := termMonths;
     Loan.interestRate := 5 # 100; Loan.status := Loan.pending;
     Loan.createdAt := "2024-01-01T00:00:00.000Z" |}.

(** An input with an empty name and a zero amount. *)
Definition empty_name_zero_amount : LoanService.CreateLoanInput :=
  {| LoanService.in_applicantName := "   "; LoanService.in_amount := 0;
     LoanService.in_termMonths := 36;
     LoanService.in_interestRate := 8 # 100 |}.

(** Readings of the clock and of [Math.random], in a browser that has
    room for every store. *)
Definition sample_env : Env :=
  {| Date_now := 1764592711123; random36 := "0.wd7xs0gq1";
     new_Date := 1764592711123; setItem_accepts := fun _ => true |}.

(** The same readings in a browser whose quota is used up. *)
Definition full_env : Env :=
  {| Date_now := 1764592711123; random36 := "0.wd7xs0gq1";
     new_Date := 1764592711123; setItem_accepts := fun _ => false |}.

(** A store that holds the given loans and no audit log. *)
Definition store_of (loans : list Loan.LoanApplication) : localStorage :=
  {| tredgate_loans := Some (ArrayJSON loans); tredgate_audit_logs := None |}.



(** A started application on a store with one pending loan and one audit
    entry. *)
Definition one_pending_store : localStorage :=
  {| tredgate_loans := Some (ArrayJSON [john_doe_loan]);
     tredgate_audit_logs :=
       Some (ArrayJSON [created_entry sample_env john_doe_loan]) |}.

Definition one_pending_app : App.State := App.mounted one_pending_store.

(** The click on "approve" in the row of loan 1. *)
Definition approve_click : UI.Event :=
  UI.Row sample_env (LoanList.approve "1").

Definition after_approval : App.State :=
  final (UI.handle approve_click one_pending_app).




(** The same two clicks from the store with one pending loan, in a browser
    whose quota is used up. *)
Definition approve_click_full : UI.Event :=
  UI.Row full_env (LoanList.approve "1").

Definition reject_click_full : UI.Event :=
  UI.Row full_env (LoanList.reject "1").

Definition after_unlogged_approval : App.State :=
  final (UI.handle approve_click_full one_pending_app).




(** The three entries of the [processAuditLogs] tests in
    [tests/auditLogService.test.ts]. *)
Definition test_log_1 : AuditLogEntry :=
  {| id := "1"; timestamp := "2024-01-01T00:00:00.000Z";
     actionType := loan_created; loanId := "loan-1";
     applicantName := "Alice Smith"; previousStatus := None;
     newStatus := None; loanAmount := 10000; decisionMethod := None |}.

Definition test_log_2 : AuditLogEntry :=
  {| id := "2"; timestamp := "2024-01-03T00:00:00.000Z";
     actionType := status_changed_manual; loanId := "loan-1";
     applicantName := "Alice Smith"; previousStatus := Some "pending";
     newStatus := Some "approved"; loanAmount := 10000;
     decisionMethod := Some "manual" |}.

Definition test_log_3 : AuditLogEntry :=
  {| id := "3"; timestamp := "2024-01-02T00:00:00.000Z";
     actionType := loan_created; loanId := "loan-2";
     applicantName := "Bob Jones"; previousStatus := None;
     newStatus := None; loanAmount := 20000; decisionMethod := None |}.

Definition test_logs : list AuditLogEntry :=
  [test_log_1; test_log_2; test_log_3].

(** ** [src/components/AuditLogViewer.vue] *)

Module AuditLogViewer.

(** The store, and the refs [allLogs], [filterType] and [searchTerm]. *)
Record State : Type := mkViewer {
  storage : localStorage;
  allLogs : JSValue AuditLogEntry;
  filterType : string;
  searchTerm : string
}.

(** A call of a service function from the component. *)
Definition service {A} (m : Eff localStorage A) : Eff State A :=
  fun st =>
    let '(c, ls) := m (storage st) in
    (c, {| storage := ls; allLogs := allLogs st;
           filterType := filterType st; searchTerm := searchTerm st |}).

Definition set_allLogs (v : JSValue AuditLogEntry) : Eff State unit :=
  fun st => (Normal tt, {| storage := storage st; allLogs := v;
                           filterType := filterType st;
                           searchTerm := searchTerm st |}).

Definition loadLogs : Eff State unit :=
  let! v := service getAuditLogs in
  set_allLogs v.

(** The component as created, and after [onMounted]. *)
Definition created (ls : localStorage) : State :=
  {| storage := ls; allLogs := VArray []; filterType := "all";
     searchTerm := "" |}.

Definition mounted (ls : localStorage) : State :=
  final (loadLogs (created ls)).

Definition getActionLabel (actionType : string) : string :=
  if String.eqb actionType "loan_created" then "Loan Created"
  else if String.eqb actionType "status_changed_manual"
  then "Status Changed (Manual)"
  else if String.eqb actionType "status_changed_auto"
  then "Status Changed (Auto)"
  else if String.eqb actionType "loan_deleted" then "Loan Deleted"
  else actionType.

Definition getActionClass (actionType : string) : string :=
  if String.eqb actionType "loan_created" then "action-created"
  else if String.eqb actionType "status_changed_manual" then "action-manual"
  else if String.eqb actionType "status_changed_auto" then "action-auto"
  else if String.eqb actionType "loan_deleted" then "action-deleted"
  else "".

(** The options of the select bound to [filterType]: value and text. *)
Definition filter_options : list (string * string) :=
  [("all", "All Actions");
   ("loan_created", "Loan Created");
   ("status_changed_manual", "Status Changed (Manual)");
   ("status_changed_auto", "Status Changed (Auto)");
   ("loan_deleted", "Loan Deleted")].

(** The badge of a row: [getActionLabel(log.actionType)]. *)
Definition badge_label (log : AuditLogEntry) : string :=
  getActionLabel (actionType_literal (actionType log)).

Definition badge_class (log : AuditLogEntry) : string :=
  getActionClass (actionType_literal (actionType log)).

(** The three forms of the details cell: [previous -> new] with an arrow,
    [Status: previous], and a dash. *)
Inductive Details : Type :=
| Transition (previous new : string)
| StatusOnly (previous : string)
| Dash.

(** An optional string in a condition: [undefined] and the empty string
    are falsy. *)
Definition truthy (o : option string) : bool :=
  match o with
  | Some s => negb (JS.isEmpty s)
  | None => false
  end.

(** The details cell: [v-if="log.previousStatus && log.newStatus"],
    [v-else-if="log.previousStatus"], [v-else]. *)
Definition details (log : AuditLogEntry) : Details :=
  if truthy (previousStatus log) && truthy (newStatus log)
  then Transition (default "" (previousStatus log))
         (default "" (newStatus log))
  else if truthy (previousStatus log)
  then StatusOnly (default "" (previousStatus log))
  else Dash.

(** What is under the controls: one of the two messages of the empty
    state, or the table of [processedLogs]. *)
Inductive Display : Type :=
| NoEntriesYet
| NoMatch
| Table (rows : list AuditLogEntry).

(** The template for [allLogs] an array, with [processedLogs] the computed
    [processAuditLogs(allLogs, filterType, searchTerm)]. *)
Definition display (Date_getTime : string -> option Z)
  (allLogs : list AuditLogEntry) (filterType searchTerm : string) : Display :=
  let processedLogs :=
    processAuditLogs Date_getTime allLogs filterType searchTerm in
  if (length processedLogs =? 0)%nat
  then if (length allLogs =? 0)%nat then NoEntriesYet else NoMatch
  else Table processedLogs.

End AuditLogViewer.

(** ** [src/components/ConfirmModal.vue] *)

Module ConfirmModal.

Inductive Emit : Type := confirm | cancel.

Definition handleEscape (key : string) : list Emit :=
  if String.eqb key "Escape" then [cancel] else [].

(** What the user does to the dialog: a click on the overlay, on Cancel, on
    Delete, or a key pressed in the window. *)
Inductive Input : Type :=
| click_overlay
| click_cancel
| click_confirm
| keydown (key : string).

(** The overlay and its buttons are rendered with [v-if="isOpen"];
    [handleEscape] runs while it is registered on the window. *)
Definition react (isOpen listening : bool) (i : Input) : list Emit :=
  match i with
  | click_overlay | click_cancel => if isOpen then [cancel] else []
  | click_confirm => if isOpen then [confirm] else []
  | keydown key => if listening then handleEscape key else []
  end.

(** The watcher on [props.isOpen], run when the prop has changed: the
    listener is added when the dialog opened and removed when it closed. *)
Definition watch_isOpen (isOpen : bool) : bool := isOpen.

End ConfirmModal.

(** ** [src/components/LoanList.vue]: the delete dialog *)

Module DeleteDialog.

Record Target : Type := mkTarget {
  target_id : string;
  target_name : string
}.

(** The refs [showDeleteModal] and [deleteTarget], and whether the dialog
    has its key listener registered. *)
Record State : Type := mkDialog {
  showDeleteModal : bool;
  deleteTarget : option Target;
  listening : bool
}.

Definition initial : State :=
  {| showDeleteModal := false; deleteTarget := None; listening := false |}.

Definition handleDelete (id applicantName : string) (st : State) : State :=
  {| showDeleteModal := true;
     deleteTarget :=
       Some {| target_id := id; target_name := applicantName |};
     listening := listening st |}.

(** Returns the state and what the list emits. *)
Definition confirmDelete (st : State) : State * list LoanList.Emit :=
  match deleteTarget st with
  | Some target =>
      ({| showDeleteModal := false; deleteTarget := None;
          listening := listening st |},
       [LoanList.delete (target_id target)])
  | None => (st, [])
  end.

Definition cancelDelete (st : State) : State :=
  {| showDeleteModal := false; deleteTarget := None;
     listening := listening st |}.

(** The dialog's watcher runs when [showDeleteModal], its [isOpen] prop, is
    not what it was. *)
Definition rewatch (old st : State) : State :=
  if Bool.eqb (showDeleteModal old) (showDeleteModal st) then st
  else {| showDeleteModal := showDeleteModal st;
          deleteTarget := deleteTarget st;
          listening := ConfirmModal.watch_isOpen (showDeleteModal st) |}.

Inductive Action : Type :=
| click_delete (id applicantName : string)   (* the delete button of a row *)
| dialog (i : ConfirmModal.Input).

(** [@confirm="confirmDelete"] and [@cancel="cancelDelete"]. *)
Definition on_emit (r : State * list LoanList.Emit) (e : ConfirmModal.Emit)
  : State * list LoanList.Emit :=
  match e with
  | ConfirmModal.confirm =>
      let '(st, out) := confirmDelete (fst r) in (st, (snd r ++ out)%list)
  | ConfirmModal.cancel => (cancelDelete (fst r), snd r)
  end.

Definition step (a : Action) (st : State) : State * list LoanList.Emit :=
  match a with
  | click_delete id applicantName =>
      (rewatch st (handleDelete id applicantName st), [])
  | dialog i =>
      let r :=
        fold_left on_emit
          (ConfirmModal.react (showDeleteModal st) (listening st) i)
          (st, []) in
      (rewatch st (fst r), snd r)
  end.

(** The state after a list of actions and all that was emitted. *)
Fixpoint run (actions : list Action) (st : State)
  : State * list LoanList.Emit :=
  match actions with
  | [] => (st, [])
  | a :: rest =>
      let '(st1, out1) := step a st in
      let '(st2, out2) := run rest st1 in
      (st2, (out1 ++ out2)%list)
  end.

(** The ids of the rows whose delete button was clicked. *)
Fixpoint clicked (actions : list Action) : list string :=
  match actions with
  | [] => []
  | click_delete id _ :: rest => id :: clicked rest
  | dialog _ :: rest => clicked rest
  end.

Definition emitted_id (e : LoanList.Emit) : string :=
  match e with
  | LoanList.approve i | LoanList.reject i | LoanList.autoDecide i
  | LoanList.delete i => i
  end.

End DeleteDialog.

(** ** [src/App.vue]: the list comes and goes with the view *)

Module ListView.

(** [App.vue] renders the list with [v-if="currentView === 'loans'"]: it
    is unmounted when the view changes to the audit log and mounted anew,
    with its refs as at the start, when the view changes back.  [dialog]
    is the state of the dialog of the mounted list.  [ConfirmModal.vue]
    removes its key handler in the watcher of [isOpen] only, and the
    watcher does not run when the component is unmounted: a handler that
    is registered at that time stays on the window.  [stale] counts these
    handlers; what they emit, they emit from a component that is
    unmounted, which calls no handler of a list. *)
Record State : Type := mkView {
  dialog : option DeleteDialog.State;
  stale : nat
}.

Definition initial : State :=
  {| dialog := Some DeleteDialog.initial; stale := 0 |}.

Inductive Action : Type :=
| on_list (a : DeleteDialog.Action)  (* a click in the list, or a key *)
| showAuditView                      (* the button "Audit Log" *)
| showLoansView.                     (* the button "Loan Applications" *)

Definition step (a : Action) (st : State) : State * list LoanList.Emit :=
  match a, dialog st with
  | on_list a, Some d =>
      let '(d', out) := DeleteDialog.step a d in
      ({| dialog := Some d'; stale := stale st |}, out)
  | on_list _, None => (st, [])
  | showAuditView, Some d =>
      ({| dialog := None;
          stale := (stale st + if DeleteDialog.listening d then 1 else 0)
                   %nat |},
       [])
  | showAuditView, None => (st, [])
  | showLoansView, Some _ => (st, [])
  | showLoansView, None =>
      ({| dialog := Some DeleteDialog.initial; stale := stale st |}, [])
  end.

Fixpoint run (actions : list Action) (st : State)
  : State * list LoanList.Emit :=
  match actions with
  | [] => (st, [])
  | a :: rest =>
      let '(st1, out1) := step a st in
      let '(st2, out2) := run rest st1 in
      (st2, (out1 ++ out2)%list)
  end.

End ListView.

(** ** [e2e-tests/helpers/test-helpers.ts]: the store *)

Module StorageHelpers.



End StorageHelpers.

(** ** More vocabulary *)

(** A text that does not begin with white space. *)
Definition starts_clean (s : string) : Prop :=
  match s with
  | EmptyString => True
  | String c _ => JS.isWhiteSpace c = false
  end.

(** The test of the search stage for "no search": the term trims to the
    empty string. *)
Definition blank (s : string) : bool := String.eqb (JS.trim s) "".

(** Appending the entries one after the other, while each call returns. *)
Fixpoint addAuditLogs (env : Env) (entries : list AuditLogEntry)
  : Eff localStorage unit :=
  match entries with
  | [] => eret tt
  | e :: rest => addAuditLog env e ;; addAuditLogs env rest
  end.

(** What holds of the delete dialog at all times: it is open exactly
    while a target is set, and its key listener is registered exactly while
    it is open. *)
Definition dialog_consistent (st : DeleteDialog.State) : Prop :=
  DeleteDialog.showDeleteModal st
  = match DeleteDialog.deleteTarget st with
    | Some _ => true
    | None => false
    end
  /\ DeleteDialog.listening st = DeleteDialog.showDeleteModal st.

(** The same of the dialog of the list, while the list is mounted. *)
Definition view_consistent (st : ListView.State) : Prop :=
  forall d, ListView.dialog st = Some d -> dialog_consistent d.

(** One when a target is set. *)
Definition pending_target (st : DeleteDialog.State) : nat :=
  match DeleteDialog.deleteTarget st with
  | Some _ => 1
  | None => 0
  end.

(** * Properties *)

(** ** The platform functions on examples *)

Example toISOString_epoch : JS.toISOString 0 = "1970-01-01T00:00:00.000Z".
Proof. reflexivity. Qed.

Example toISOString_2024 :
  JS.toISOString 1704067200000 = "2024-01-01T00:00:00.000Z".
Proof. vm_compute. reflexivity. Qed.

Example getTime_2024 :
  ISO.getTime "2024-01-01T00:00:00.000Z" = Some 1704067200000.
Proof. vm_compute. reflexivity. Qed.

Example getTime_of_toISOString :
  ISO.getTime (JS.toISOString 1764592711123) = Some 1764592711123.
Proof. vm_compute. reflexivity. Qed.

Example getTime_no_date : ISO.getTime "invalid-json" = None.
Proof. reflexivity. Qed.

Example generateId_example : generateId sample_env = "min4xtxvwd7xs0g".
Proof. vm_compute. reflexivity. Qed.

Example trim_example : JS.trim "  bob  " = "bob".
Proof. reflexivity. Qed.

Example includes_example :
  JS.includes (JS.toLowerCase "Alice Smith") "alice" = true
  /\ JS.includes (JS.toLowerCase "Bob Jones") "alice" = false.
Proof. split; reflexivity. Qed.

(** ** The unit tests of the audit log service, replayed *)

Example test_getAuditLogs_nothing_stored :
  getAuditLogs empty_storage = (Normal (VArray []), empty_storage).
Proof. reflexivity. Qed.

Example test_addAuditLog_appends :
  final (addAuditLog sample_env test_log_2
           (final (saveAuditLogs sample_env [test_log_1] empty_storage)))
  = final (saveAuditLogs sample_env [test_log_1; test_log_2] empty_storage)
  /\ audit_log
       (final (addAuditLog sample_env test_log_2
                 (final (saveAuditLogs sample_env [test_log_1]
                           empty_storage))))
     = [test_log_1; test_log_2].
Proof. split; reflexivity. Qed.

Example test_filter_all_and_empty :
  filterLogsByActionType test_logs "all" = test_logs
  /\ filterLogsByActionType test_logs "" = test_logs
  /\ filterLogsByActionType test_logs "loan_created"
     = [test_log_1; test_log_3]
  /\ filterLogsByActionType test_logs "status_changed_auto" = [].
Proof. repeat split; reflexivity. Qed.

Example test_search :
  searchLogs test_logs "" = test_logs
  /\ searchLogs test_logs "alice" = [test_log_1; test_log_2]
  /\ searchLogs test_logs "  bob  " = [test_log_3]
  /\ searchLogs test_logs "LOAN-2" = [test_log_3]
  /\ searchLogs test_logs "nonexistent" = [].
Proof. repeat split; vm_compute; reflexivity. Qed.

Example test_sort_newest_first :
  sortLogsByTimestamp ISO.getTime test_logs
  = [test_log_2; test_log_3; test_log_1].
Proof. vm_compute. reflexivity. Qed.

Example test_processAuditLogs :
  processAuditLogs ISO.getTime test_logs "loan_created" "alice"
  = [test_log_1]
  /\ processAuditLogs ISO.getTime test_logs "all" ""
     = [test_log_2; test_log_3; test_log_1]
  /\ processAuditLogs ISO.getTime test_logs "loan_created" ""
     = [test_log_3; test_log_1]
  /\ processAuditLogs ISO.getTime test_logs "all" "bob" = [test_log_3].
Proof. repeat split; vm_compute; reflexivity. Qed.

(** ** Entry constructors *)

Lemma createLoanCreatedLog_presence env input :
  field_presence (createLoanCreatedLog env input).
Proof. unfold field_presence; simpl; auto. Qed.

Lemma createStatusChangeLog_presence env input :
  field_presence (createStatusChangeLog env input).
Proof.
  unfold field_presence; simpl.
  destruct (sc_isAuto input); repeat split; eexists; reflexivity.
Qed.

Lemma createLoanDeletedLog_presence env input :
  field_presence (createLoanDeletedLog env input).
Proof. unfold field_presence; simpl; repeat split. eexists; reflexivity. Qed.

(** C5.  Every entry the three constructors build satisfies the
    field-presence rule: a [loan_created] entry has none of
    [previousStatus], [newStatus], [decisionMethod]; a status-change entry
    (manual or auto) has all three, with the statuses of the input and the
    method [manual] or [auto]; a [loan_deleted] entry has [previousStatus]
    (the status given) and neither [newStatus] nor [decisionMethod]. *)
Theorem constructors_field_presence :
  (forall env input,
      let e := createLoanCreatedLog env input in
      actionType e = loan_created
      /\ previousStatus e = None /\ newStatus e = None
      /\ decisionMethod e = None)
  /\ (forall env input,
      let e := createStatusChangeLog env input in
      actionType e
        = (if sc_isAuto input then status_changed_auto
           else status_changed_manual)
      /\ previousStatus e = Some (sc_previousStatus input)
      /\ newStatus e = Some (sc_newStatus input)
      /\ decisionMethod e
          = Some (if sc_isAuto input then "auto" else "manual"))
  /\ (forall env input,
      let e := createLoanDeletedLog env input in
      actionType e = loan_deleted
      /\ previousStatus e = Some (dl_status input) /\ newStatus e = None
      /\ decisionMethod e = None)
  /\ (forall env i1 i2 i3,
      field_presence (createLoanCreatedLog env i1)
      /\ field_presence (createStatusChangeLog env i2)
      /\ field_presence (createLoanDeletedLog env i3)).
Proof.
  split; [| split; [| split]].
  - intros env input e; subst e; simpl; auto.
  - intros env input e; subst e; simpl; auto.
  - intros env input e; subst e; simpl; auto.
  - intros env i1 i2 i3.
    auto using createLoanCreatedLog_presence, createStatusChangeLog_presence,
      createLoanDeletedLog_presence.
Qed.

(** ** Loading the audit log *)

Lemma getAuditLogs_array ls l :
  tredgate_audit_logs ls = Some (ArrayJSON l) ->
  getAuditLogs ls = (Normal (VArray l), ls).
Proof.
  intros H. unfold getAuditLogs, try_catch, ebind, getItem_audit; simpl.
  rewrite H; reflexivity.
Qed.

Lemma getAuditLogs_empty ls :
  tredgate_audit_logs ls = None
  \/ (exists raw, tredgate_audit_logs ls = Some (NotJSON raw)) ->
  getAuditLogs ls = (Normal (VArray []), ls).
Proof.
  intros [H | [raw H]];
    unfold getAuditLogs, try_catch, ebind, getItem_audit; simpl;
    rewrite H; simpl; [reflexivity |].
  destruct (JS.isEmpty raw); reflexivity.
Qed.

(** C8.  Loading the audit log never throws: on every store
    [getAuditLogs] returns a value and leaves the store as it is; when the
    key is not set, or holds text that is not valid JSON, the value is the
    empty array. *)
Theorem getAuditLogs_never_throws :
  (forall ls, exists v, getAuditLogs ls = (Normal v, ls))
  /\ (forall ls,
        tredgate_audit_logs ls = None
        \/ (exists raw, tredgate_audit_logs ls = Some (NotJSON raw)) ->
        getAuditLogs ls = (Normal (VArray []), ls)).
Proof.
  split; [| exact getAuditLogs_empty].
  intros ls.
  destruct (tredgate_audit_logs ls) as [[raw | l |] |] eqn:H.
  - exists (VArray []). apply getAuditLogs_empty; eauto.
  - exists (VArray l). apply getAuditLogs_array; assumption.
  - exists VNotArray.
    unfold getAuditLogs, try_catch, ebind, getItem_audit; simpl.
    rewrite H; reflexivity.
  - exists (VArray []). apply getAuditLogs_empty; auto.
Qed.

Lemma getAuditLogs_never_throws_witness :
  (tredgate_audit_logs invalid_json_store = None
   \/ exists raw, tredgate_audit_logs invalid_json_store = Some (NotJSON raw))
  /\ getAuditLogs invalid_json_store
     = (Normal (VArray []), invalid_json_store).
Proof.
  assert (H : tredgate_audit_logs invalid_json_store = None
              \/ exists raw,
                  tredgate_audit_logs invalid_json_store = Some (NotJSON raw)).
  { right. exists "invalid-json". reflexivity. }
  split; [exact H |].
  exact (proj2 getAuditLogs_never_throws invalid_json_store H).
Defined.

(** ** The sort *)

Section SortProperties.

Variable Date_getTime : string -> option Z.

Local Abbreviation cmp := (compareTimestamps Date_getTime).
Local Abbreviation valid := (valid_timestamp Date_getTime).
Local Abbreviation before := (not_older Date_getTime).

(** The model of [sort] moves [x] past [y] only when [y] is strictly
    later than [x]. *)
Lemma passes_later x y :
  (0 <? sortCompare cmp x y) = true ->
  exists tx ty,
    Date_getTime (timestamp x) = Some tx
    /\ Date_getTime (timestamp y) = Some ty /\ tx < ty.
Proof.
  unfold sortCompare, compareTimestamps.
  destruct (Date_getTime (timestamp y)) as [ty |];
    destruct (Date_getTime (timestamp x)) as [tx |];
    intros H; try discriminate H.
  exists tx, ty. apply Z.ltb_lt in H. repeat split; lia.
Qed.

Lemma stays_not_older x y :
  valid x -> valid y ->
  (0 <? sortCompare cmp x y) = false -> before x y.
Proof.
  unfold valid_timestamp, sortCompare, compareTimestamps.
  intros [tx Hx] [ty Hy]. rewrite Hx, Hy. intros H.
  apply Z.ltb_ge in H. exists tx, ty. repeat split; trivial; lia.
Qed.

Lemma not_older_trans a b c : before a b -> before b c -> before a c.
Proof.
  intros (ta & tb & Ha & Hb & Hab) (tb' & tc & Hb' & Hc & Hbc).
  rewrite Hb in Hb'; injection Hb' as <-.
  exists ta, tc. repeat split; trivial; lia.
Qed.

Lemma sort_insert_In x l z :
  In z (sort_insert cmp x l) <-> z = x \/ In z l.
Proof.
  induction l as [| y rest IH]; simpl.
  - intuition.
  - destruct (0 <? sortCompare cmp x y); simpl.
    + rewrite IH. intuition.
    + intuition.
Qed.

Lemma sort_insert_Permutation x l :
  Permutation (sort_insert cmp x l) (x :: l).
Proof.
  induction l as [| y rest IH]; simpl.
  - apply Permutation_refl.
  - destruct (0 <? sortCompare cmp x y).
    + eapply perm_trans; [apply perm_skip, IH | apply perm_swap].
    + apply Permutation_refl.
Qed.

Lemma Array_sort_Permutation l : Permutation (Array_sort cmp l) l.
Proof.
  induction l as [| x rest IH]; simpl.
  - apply perm_nil.
  - eapply perm_trans; [apply sort_insert_Permutation |].
    apply perm_skip, IH.
Qed.

Lemma sort_insert_sorted x l :
  valid x -> Forall valid l ->
  StronglySorted before l -> StronglySorted before (sort_insert cmp x l).
Proof.
  intros Hx Hl Hs.
  induction l as [| y rest IH]; simpl.
  - constructor; constructor.
  - inversion Hl as [| ? ? Hy Hrest]; subst.
    inversion Hs as [| ? ? Hs' Hall]; subst.
    destruct (0 <? sortCompare cmp x y) eqn:Hc.
    + constructor; [apply IH; assumption |].
      apply List.Forall_forall. intros z Hz.
      apply sort_insert_In in Hz as [-> | Hz].
      * apply passes_later in Hc as (tx & ty & Ex & Ey & Hlt).
        exists ty, tx. repeat split; trivial; lia.
      * rewrite List.Forall_forall in Hall. apply Hall, Hz.
    + pose proof (stays_not_older x y Hx Hy Hc) as Hxy.
      constructor; [assumption |].
      constructor; [assumption |].
      eapply List.Forall_impl; [| exact Hall].
      intros z Hz. eapply not_older_trans; eassumption.
Qed.

Lemma Array_sort_sorted l :
  Forall valid l -> StronglySorted before (Array_sort cmp l).
Proof.
  induction l as [| x rest IH]; intros Hl; simpl.
  - constructor.
  - inversion Hl as [| ? ? Hx Hrest]; subst.
    apply sort_insert_sorted; auto.
    eapply Permutation_Forall; [| exact Hrest].
    apply Permutation_sym, Array_sort_Permutation.
Qed.

(** Entries of one time keep their order: an entry is moved only past
    entries of another time. *)
Lemma sort_insert_stable t x l :
  List.filter (at_time Date_getTime t) (sort_insert cmp x l)
  = List.filter (at_time Date_getTime t) (x :: l).
Proof.
  induction l as [| y rest IH]; simpl; [reflexivity |].
  destruct (0 <? sortCompare cmp x y) eqn:Hc; [| reflexivity].
  simpl. rewrite IH. simpl.
  apply passes_later in Hc as (tx & ty & Ex & Ey & Hlt).
  unfold at_time. rewrite Ex, Ey.
  destruct (ty =? t) eqn:E1; destruct (tx =? t) eqn:E2; try reflexivity.
  apply Z.eqb_eq in E1, E2. lia.
Qed.

Lemma Array_sort_stable t l :
  List.filter (at_time Date_getTime t) (Array_sort cmp l)
  = List.filter (at_time Date_getTime t) l.
Proof.
  induction l as [| x rest IH]; simpl; [reflexivity |].
  rewrite sort_insert_stable. simpl. rewrite IH. reflexivity.
Qed.

(** Two newest-first arrangements of the same entries that keep the entries
    of each time in the same order are the same list. *)
Lemma stable_sorted_unique l1 :
  forall l2,
    Forall valid l1 ->
    StronglySorted before l1 -> StronglySorted before l2 ->
    Permutation l1 l2 ->
    (forall t,
        List.filter (at_time Date_getTime t) l1
        = List.filter (at_time Date_getTime t) l2) ->
    l1 = l2.
Proof.
  induction l1 as [| x r1 IH]; intros l2 Hvalid Hs1 Hs2 Hperm Hstable.
  - apply Permutation_nil in Hperm. congruence.
  - destruct l2 as [| y r2].
    { apply Permutation_sym, Permutation_nil in Hperm. discriminate. }
    inversion Hvalid as [| ? ? [tx Ex] Hvalid1]; subst.
    inversion Hs1 as [| ? ? Hs1' Hall1]; subst.
    inversion Hs2 as [| ? ? Hs2' Hall2]; subst.
    assert (Hyx : exists ty, Date_getTime (timestamp y) = Some ty /\ ty <= tx).
    { assert (Hy : In y (x :: r1)).
      { eapply Permutation_in; [apply Permutation_sym, Hperm | left; auto]. }
      destruct Hy as [<- | Hy]; [exists tx; split; [exact Ex | lia] |].
      rewrite List.Forall_forall in Hall1.
      destruct (Hall1 y Hy) as (tx' & ty & Ex' & Ey & Hle).
      exists ty. split; [exact Ey | congruence]. }
    destruct Hyx as (ty & Ey & Hyx).
    assert (Hxy : tx <= ty).
    { assert (Hx : In x (y :: r2)).
      { eapply Permutation_in; [exact Hperm | left; auto]. }
      destruct Hx as [<- | Hx]; [congruence |].
      rewrite List.Forall_forall in Hall2.
      destruct (Hall2 x Hx) as (ty' & tx' & Ey' & Ex' & Hle).
      assert (ty' = ty) by congruence. assert (tx' = tx) by congruence.
      lia. }
    assert (ty = tx) by lia. subst ty.
    assert (Hhead : x = y).
    { assert (Hx : at_time Date_getTime tx x = true)
        by (unfold at_time; rewrite Ex; apply Z.eqb_refl).
      assert (Hy : at_time Date_getTime tx y = true)
        by (unfold at_time; rewrite Ey; apply Z.eqb_refl).
      specialize (Hstable tx). cbn [List.filter] in Hstable.
      rewrite Hx, Hy in Hstable. congruence. }
    subst y. f_equal.
    apply IH; try assumption.
    + eapply Permutation_cons_inv, Hperm.
    + intros t. specialize (Hstable t). cbn [List.filter] in Hstable.
      destruct (at_time Date_getTime t x); congruence.
Qed.

(** The model of [sort] is the only choice: any stable newest-first
    arrangement of a list of dated entries is the list [Array_sort]
    gives. *)
Lemma Array_sort_unique l l' :
  Forall valid l ->
  Permutation l' l ->
  StronglySorted before l' ->
  (forall t,
      List.filter (at_time Date_getTime t) l'
      = List.filter (at_time Date_getTime t) l) ->
  l' = Array_sort cmp l.
Proof.
  intros Hvalid Hperm Hsorted Hstable.
  apply stable_sorted_unique.
  - eapply Permutation_Forall; [apply Permutation_sym, Hperm | exact Hvalid].
  - exact Hsorted.
  - apply Array_sort_sorted, Hvalid.
  - eapply perm_trans; [exact Hperm |].
    apply Permutation_sym, Array_sort_Permutation.
  - intros t. rewrite Array_sort_stable. apply Hstable.
Qed.

End SortProperties.

(** ** The stages of the query *)

Lemma filter_true {A} (l : list A) : List.filter (fun _ => true) l = l.
Proof. induction l as [| x l IH]; simpl; congruence. Qed.

Lemma filter_twice {A} (p q : A -> bool) (l : list A) :
  List.filter q (List.filter p l) = List.filter (fun x => p x && q x) l.
Proof.
  induction l as [| x l IH]; simpl; [reflexivity |].
  destruct (p x); simpl; [destruct (q x) |]; congruence.
Qed.

(** Both stages together keep the entries of [query_keeps], in the order
    of the input. *)
Lemma stages_as_filter logs wanted searchTerm :
  searchLogs (filterLogsByActionType logs wanted) searchTerm
  = List.filter (query_keeps wanted searchTerm) logs.
Proof.
  unfold searchLogs, filterLogsByActionType, query_keeps.
  destruct (JS.isEmpty wanted || String.eqb wanted "all");
    destruct (JS.isEmpty searchTerm || String.eqb (JS.trim searchTerm) "");
    simpl.
  - symmetry. apply filter_true.
  - reflexivity.
  - apply List.filter_ext. intros e. symmetry. apply andb_true_r.
  - apply filter_twice.
Qed.

Lemma stages_swapped logs wanted searchTerm :
  filterLogsByActionType (searchLogs logs searchTerm) wanted
  = List.filter (query_keeps wanted searchTerm) logs.
Proof.
  unfold searchLogs, filterLogsByActionType, query_keeps.
  destruct (JS.isEmpty wanted || String.eqb wanted "all");
    destruct (JS.isEmpty searchTerm || String.eqb (JS.trim searchTerm) "");
    simpl.
  - symmetry. apply filter_true.
  - reflexivity.
  - apply List.filter_ext. intros e. symmetry. apply andb_true_r.
  - rewrite filter_twice. apply List.filter_ext. intros e. apply andb_comm.
Qed.

Lemma processAuditLogs_unfold Date_getTime logs wanted searchTerm :
  processAuditLogs Date_getTime logs wanted searchTerm
  = sortLogsByTimestamp Date_getTime
      (List.filter (query_keeps wanted searchTerm) logs).
Proof.
  unfold processAuditLogs. rewrite stages_as_filter. reflexivity.
Qed.

Lemma valid_filter Date_getTime (p : AuditLogEntry -> bool) logs :
  Forall (valid_timestamp Date_getTime) logs ->
  Forall (valid_timestamp Date_getTime) (List.filter p logs).
Proof.
  intros H. apply List.Forall_forall. intros e He.
  apply List.filter_In in He as [He _].
  rewrite List.Forall_forall in H. auto.
Qed.

(** C6.  For every list of entries and every filter and search arguments,
    the result of [processAuditLogs] holds the entries the two stages keep,
    no more and no fewer; and when the timestamps of the list are dates, as
    the data model has them, the result is sorted newest first and the
    entries of equal time stand in the order they have in the input
    list. *)
Theorem processAuditLogs_sorted_stable
  (Date_getTime : string -> option Z) (logs : list AuditLogEntry)
  (wanted searchTerm : string) :
  let out := processAuditLogs Date_getTime logs wanted searchTerm in
  (Forall (valid_timestamp Date_getTime) logs ->
   StronglySorted (not_older Date_getTime) out
   /\ forall t,
       List.filter (at_time Date_getTime t) out
       = List.filter (at_time Date_getTime t)
           (List.filter (query_keeps wanted searchTerm) logs))
  /\ Permutation out (List.filter (query_keeps wanted searchTerm) logs).
Proof.
  intros out. subst out. rewrite processAuditLogs_unfold.
  unfold sortLogsByTimestamp. split.
  - intros Hvalid. split.
    + apply Array_sort_sorted, valid_filter, Hvalid.
    + intros t. apply Array_sort_stable.
  - apply Array_sort_Permutation.
Qed.

Lemma sample_logs_valid : Forall (valid_timestamp ISO.getTime) sample_logs.
Proof.
  repeat constructor; eexists; vm_compute; reflexivity.
Qed.

Lemma processAuditLogs_sorted_stable_witness :
  Forall (valid_timestamp ISO.getTime) sample_logs
  /\ StronglySorted (not_older ISO.getTime)
       (processAuditLogs ISO.getTime sample_logs "all" "")
  /\ List.filter (at_time ISO.getTime 1704067200000)
       (processAuditLogs ISO.getTime sample_logs "all" "")
     = [alice_entry; alice_approved_entry]
  /\ processAuditLogs ISO.getTime sample_logs "all" ""
     = [bob_entry; alice_entry; alice_approved_entry].
Proof.
  split; [exact sample_logs_valid |].
  destruct (proj1 (processAuditLogs_sorted_stable ISO.getTime sample_logs
                     "all" "")
              sample_logs_valid) as (Hsorted & Hstable).
  split; [exact Hsorted |].
  split; [| vm_compute; reflexivity].
  rewrite (Hstable 1704067200000). vm_compute. reflexivity.
Defined.

(** The query-composition property of the spec on its two entries. *)
Example query_composition :
  processAuditLogs ISO.getTime [alice_entry; bob_entry] "all" ""
  = [bob_entry; alice_entry]
  /\ processAuditLogs ISO.getTime [alice_entry; bob_entry]
       "loan_created" "alice"
     = [alice_entry].
Proof. split; vm_compute; reflexivity. Qed.

(** What [query(logs, 'loan_created', 'alice')] keeps. *)
Lemma query_keeps_created_alice e :
  query_keeps "loan_created" "alice" e = true
  <-> actionType e = loan_created
      /\ (JS.includes (JS.toLowerCase (applicantName e)) "alice" = true
          \/ JS.includes (JS.toLowerCase (loanId e)) "alice" = true).
Proof.
  unfold query_keeps, hasActionType, matchesTerm.
  change (JS.trim (JS.toLowerCase "alice")) with "alice".
  change (JS.isEmpty "loan_created" || String.eqb "loan_created" "all")
    with false.
  change (JS.isEmpty "alice" || String.eqb (JS.trim "alice") "") with false.
  simpl orb. rewrite andb_true_iff, orb_true_iff.
  split.
  - intros [Ha Hm]. split; [| exact Hm].
    destruct (actionType e); try reflexivity; discriminate Ha.
  - intros [Ha Hm]. rewrite Ha. split; [reflexivity | exact Hm].
Qed.

(** C7.  The filter stage and the search stage commute on every list and
    for every filter and search term.  [query(logs, 'all', '')] is the sort
    of the whole list: it keeps every entry, sorted newest first when the
    timestamps are dates.  [query(logs, 'loan_created', 'alice')] holds
    exactly the [loan_created] entries of the list whose lower-cased
    [applicantName] or [loanId] contains [alice]. *)
Theorem filter_search_commute :
  (forall logs wanted searchTerm,
      searchLogs (filterLogsByActionType logs wanted) searchTerm
      = filterLogsByActionType (searchLogs logs searchTerm) wanted)
  /\ (forall Date_getTime logs,
        processAuditLogs Date_getTime logs "all" ""
        = sortLogsByTimestamp Date_getTime logs
        /\ Permutation (processAuditLogs Date_getTime logs "all" "") logs
        /\ (Forall (valid_timestamp Date_getTime) logs ->
            StronglySorted (not_older Date_getTime)
              (processAuditLogs Date_getTime logs "all" "")))
  /\ (forall Date_getTime logs,
        (forall e,
            In e (processAuditLogs Date_getTime logs "loan_created" "alice")
            <-> In e logs
                /\ actionType e = loan_created
                /\ (JS.includes (JS.toLowerCase (applicantName e)) "alice"
                    = true
                    \/ JS.includes (JS.toLowerCase (loanId e)) "alice"
                       = true))
        /\ Permutation
             (processAuditLogs Date_getTime logs "loan_created" "alice")
             (List.filter (query_keeps "loan_created" "alice") logs)).
Proof.
  split; [| split].
  - intros logs wanted searchTerm.
    rewrite stages_as_filter, stages_swapped. reflexivity.
  - intros Date_getTime logs.
    assert (E : processAuditLogs Date_getTime logs "all" ""
                = sortLogsByTimestamp Date_getTime logs) by reflexivity.
    rewrite E. split; [reflexivity |]. split.
    + apply Array_sort_Permutation.
    + intros Hvalid. apply Array_sort_sorted, Hvalid.
  - intros Date_getTime logs.
    rewrite processAuditLogs_unfold. unfold sortLogsByTimestamp.
    split; [| apply Array_sort_Permutation].
    intros e.
    pose proof (Array_sort_Permutation Date_getTime
                  (List.filter (query_keeps "loan_created" "alice") logs))
      as Hperm.
    rewrite <- query_keeps_created_alice, <- List.filter_In.
    split; intros H.
    + eapply Permutation_in; [exact Hperm | exact H].
    + eapply Permutation_in; [apply Permutation_sym, Hperm | exact H].
Qed.

Lemma filter_search_commute_witness :
  Forall (valid_timestamp ISO.getTime) sample_logs
  /\ StronglySorted (not_older ISO.getTime)
       (processAuditLogs ISO.getTime sample_logs "all" "").
Proof.
  split; [exact sample_logs_valid |].
  exact (proj2 (proj2 (proj1 (proj2 filter_search_commute)
                         ISO.getTime sample_logs))
           sample_logs_valid).
Defined.

(** ** The query on references: the input array is not written *)

Section HeapProperties.

Lemma alloc_spec (v : list AuditLogEntry) (h : Heap.heap) :
  exists r h',
    Heap.alloc v h = (r, h')
    /\ h' !! r = Some v
    /\ (forall r0 x, h !! r0 = Some x -> h' !! r0 = Some x).
Proof.
  exists (length h), (h ++ [v])%list. split; [reflexivity |]. split.
  - rewrite lookup_app_r by lia. rewrite Nat.sub_diag. reflexivity.
  - intros r0 x H. rewrite lookup_app_l; [exact H |].
    eapply lookup_lt_Some, H.
Qed.

Lemma Array_filter_computes p logs :
  computes (Heap.Array_filter p logs) (List.filter p) logs.
Proof.
  intros h items H. unfold Heap.Array_filter, Heap.bind, Heap.read.
  rewrite H. simpl.
  apply alloc_spec.
Qed.

Lemma ret_computes logs : computes (Heap.ret logs) (fun items => items) logs.
Proof.
  intros h items H. exists logs, h. repeat split; auto.
Qed.

Lemma filterLogsByActionType_computes logs wanted :
  computes (Heap.filterLogsByActionType logs wanted)
    (fun items => filterLogsByActionType items wanted) logs.
Proof.
  unfold Heap.filterLogsByActionType, filterLogsByActionType.
  destruct (JS.isEmpty wanted || String.eqb wanted "all").
  - apply ret_computes.
  - apply Array_filter_computes.
Qed.

Lemma searchLogs_computes logs searchTerm :
  computes (Heap.searchLogs logs searchTerm)
    (fun items => searchLogs items searchTerm) logs.
Proof.
  unfold Heap.searchLogs, searchLogs.
  destruct (JS.isEmpty searchTerm || String.eqb (JS.trim searchTerm) "").
  - apply ret_computes.
  - apply Array_filter_computes.
Qed.

(** The sort writes the copy, which is a reference the store did not
    have. *)
Lemma sortLogsByTimestamp_computes Date_getTime logs :
  computes (Heap.sortLogsByTimestamp Date_getTime logs)
    (sortLogsByTimestamp Date_getTime) logs.
Proof.
  intros h items H.
  unfold Heap.sortLogsByTimestamp, Heap.spread, Heap.Array_sort_in_place,
    Heap.bind, Heap.read, Heap.write, Heap.alloc, Heap.ret.
  rewrite H. simpl.
  rewrite lookup_app_r by lia. rewrite Nat.sub_diag. simpl.
  eexists _, _. split; [reflexivity |]. split.
  - rewrite list_lookup_insert_eq; [reflexivity |].
    rewrite length_app. simpl. lia.
  - intros r0 x Hr0.
    pose proof (lookup_lt_Some _ _ _ Hr0) as Hlt.
    rewrite list_lookup_insert_ne by lia.
    rewrite lookup_app_l by exact Hlt. exact Hr0.
Qed.

Lemma sortLogsByTimestamp_fresh Date_getTime logs h items :
  h !! logs = Some items ->
  fst (Heap.sortLogsByTimestamp Date_getTime logs h) <> logs.
Proof.
  intros H.
  unfold Heap.sortLogsByTimestamp, Heap.spread, Heap.Array_sort_in_place,
    Heap.bind, Heap.read, Heap.write, Heap.alloc, Heap.ret.
  rewrite H. simpl.
  pose proof (lookup_lt_Some _ _ _ H). lia.
Qed.

(** One call after another. *)
Lemma bind_computes m1 f1 m2 f2 logs :
  computes m1 f1 logs ->
  (forall r, computes (m2 r) f2 r) ->
  computes (Heap.bind m1 m2) (fun items => f2 (f1 items)) logs.
Proof.
  intros H1 H2 h items H.
  destruct (H1 h items H) as (r1 & h1 & E1 & Hr1 & Hframe1).
  destruct (H2 r1 h1 (f1 items) Hr1) as (r2 & h2 & E2 & Hr2 & Hframe2).
  exists r2, h2. unfold Heap.bind. rewrite E1, E2. split; [reflexivity |].
  split; [exact Hr2 | auto].
Qed.

Lemma processAuditLogs_computes Date_getTime logs wanted searchTerm :
  computes (Heap.processAuditLogs Date_getTime logs wanted searchTerm)
    (fun items => processAuditLogs Date_getTime items wanted searchTerm)
    logs.
Proof.
  unfold Heap.processAuditLogs, processAuditLogs.
  apply (bind_computes _ (fun items => filterLogsByActionType items wanted)
           _ (fun items =>
                sortLogsByTimestamp Date_getTime
                  (searchLogs items searchTerm))).
  - apply filterLogsByActionType_computes.
  - intros r.
    apply (bind_computes _ (fun items => searchLogs items searchTerm)
             _ (sortLogsByTimestamp Date_getTime)).
    + apply searchLogs_computes.
    + intros r'.
      apply (bind_computes _ (sortLogsByTimestamp Date_getTime)
               _ (fun items => items)).
      * apply sortLogsByTimestamp_computes.
      * intros r''. apply ret_computes.
Qed.

Lemma computes_input m f logs h items :
  computes m f logs -> h !! logs = Some items ->
  snd (m h) !! logs = Some items /\ snd (m h) !! fst (m h) = Some (f items).
Proof.
  intros Hc H. destruct (Hc h items H) as (r & h' & E & Hr & Hframe).
  rewrite E. simpl. auto.
Qed.

End HeapProperties.

(** C10.  The stages of the query do not mutate their input.  In a store
    where the reference [logs] holds the entries [items], after a call of
    [filterLogsByActionType], [searchLogs], [sortLogsByTimestamp] or
    [processAuditLogs] the reference [logs] still holds [items], the same
    entries in the same order; the returned reference holds the result; and
    [sortLogsByTimestamp] returns a reference other than [logs], the copy it
    sorted. *)
Theorem query_does_not_mutate_input
  (Date_getTime : string -> option Z) (h : Heap.heap) (logs : Heap.ref)
  (items : list AuditLogEntry) (wanted searchTerm : string) :
  h !! logs = Some items ->
  (let r := Heap.filterLogsByActionType logs wanted h in
   snd r !! logs = Some items
   /\ snd r !! fst r = Some (filterLogsByActionType items wanted))
  /\ (let r := Heap.searchLogs logs searchTerm h in
      snd r !! logs = Some items
      /\ snd r !! fst r = Some (searchLogs items searchTerm))
  /\ (let r := Heap.sortLogsByTimestamp Date_getTime logs h in
      snd r !! logs = Some items
      /\ snd r !! fst r = Some (sortLogsByTimestamp Date_getTime items)
      /\ fst r <> logs)
  /\ (let r := Heap.processAuditLogs Date_getTime logs wanted searchTerm h in
      snd r !! logs = Some items
      /\ snd r !! fst r
         = Some (processAuditLogs Date_getTime items wanted searchTerm)).
Proof.
  intros H. cbv zeta. repeat split.
  - eapply computes_input; [apply filterLogsByActionType_computes | exact H].
  - eapply (computes_input _ (fun i => filterLogsByActionType i wanted));
      [apply filterLogsByActionType_computes | exact H].
  - eapply computes_input; [apply searchLogs_computes | exact H].
  - eapply (computes_input _ (fun i => searchLogs i searchTerm));
      [apply searchLogs_computes | exact H].
  - eapply computes_input; [apply sortLogsByTimestamp_computes | exact H].
  - eapply computes_input; [apply sortLogsByTimestamp_computes | exact H].
  - eapply sortLogsByTimestamp_fresh, H.
  - eapply computes_input; [apply processAuditLogs_computes | exact H].
  - eapply (computes_input _
              (fun i => processAuditLogs Date_getTime i wanted searchTerm));
      [apply processAuditLogs_computes | exact H].
Qed.

Lemma query_does_not_mutate_input_witness :
  sample_heap !! 0%nat = Some sample_logs
  /\ snd (Heap.sortLogsByTimestamp ISO.getTime 0%nat sample_heap) !! 0%nat
     = Some sample_logs
  /\ snd (Heap.processAuditLogs ISO.getTime 0%nat "all" "" sample_heap)
       !! 0%nat
     = Some sample_logs.
Proof.
  assert (H : sample_heap !! 0%nat = Some sample_logs) by reflexivity.
  pose proof (query_does_not_mutate_input ISO.getTime sample_heap 0%nat
                sample_logs "all" "" H) as (_ & _ & Hsort & Hquery).
  split; [exact H |].
  split; [exact (proj1 Hsort) | exact (proj1 Hquery)].
Defined.

(** What the copy is for: sorting the input array itself would reorder
    it. *)
Example sort_in_place_reorders :
  snd (Heap.Array_sort_in_place (compareTimestamps ISO.getTime) 0%nat
         sample_heap) !! 0%nat
  = Some [bob_entry; alice_entry; alice_approved_entry].
Proof. vm_compute. reflexivity. Qed.

(** ** Validation in [create] *)

Section Validation.
Import LoanService.

Lemma isEmpty_iff s : JS.isEmpty s = true <-> s = "".
Proof. destruct s; simpl; split; congruence. Qed.

Lemma validate_name input :
  JS.trim (in_applicantName input) = "" ->
  validate input = Some "Applicant name is required".
Proof.
  intros H. unfold validate. rewrite H. reflexivity.
Qed.

(** Each outcome of [validate] and the condition under which it arises:
    a message is given exactly when its check fails and all the checks
    before it pass. *)
Lemma validate_cases input :
  (validate input = Some "Applicant name is required"
   <-> JS.trim (in_applicantName input) = "")
  /\ (validate input = Some "Amount must be greater than 0"
      <-> JS.trim (in_applicantName input) <> ""
          /\ ~ (0 < in_amount input)%Q)
  /\ (validate input = Some "Term months must be greater than 0"
      <-> JS.trim (in_applicantName input) <> ""
          /\ (0 < in_amount input)%Q /\ ~ 0 < in_termMonths input)
  /\ (validate input
        = Some "Interest rate is required and cannot be negative"
      <-> JS.trim (in_applicantName input) <> ""
          /\ (0 < in_amount input)%Q /\ 0 < in_termMonths input
          /\ ~ (0 <= in_interestRate input)%Q)
  /\ (validate input = None
      <-> JS.trim (in_applicantName input) <> ""
          /\ (0 < in_amount input)%Q /\ 0 < in_termMonths input
          /\ (0 <= in_interestRate input)%Q).
Proof.
  unfold validate.
  destruct (JS.isEmpty (JS.trim (in_applicantName input))) eqn:En.
  { apply isEmpty_iff in En.
    repeat split; intros; try congruence; try tauto. }
  assert (Hn : JS.trim (in_applicantName input) <> "").
  { intros E. apply isEmpty_iff in E. congruence. }
  destruct (Qle_bool (in_amount input) 0) eqn:Ea.
  { apply Qle_bool_iff in Ea.
    assert (Hna : ~ (0 < in_amount input)%Q) by (apply Qle_not_lt, Ea).
    repeat split; intros; try congruence; try tauto. }
  assert (Ha : (0 < in_amount input)%Q).
  { apply Qnot_le_lt. intros E. apply Qle_bool_iff in E. congruence. }
  destruct (in_termMonths input <=? 0) eqn:Et.
  { apply Z.leb_le in Et.
    repeat split; intros; try congruence; try tauto; try lia. }
  apply Z.leb_gt in Et.
  destruct (Qle_bool 0 (in_interestRate input)) eqn:Er; simpl.
  { apply Qle_bool_iff in Er.
    repeat split; intros; try congruence; try tauto. }
  assert (Hr : ~ (0 <= in_interestRate input)%Q).
  { intros E. apply Qle_bool_iff in E. congruence. }
  repeat split; intros; try congruence; try tauto.
Qed.

Lemma validate_messages input message :
  validate input = Some message ->
  message = "Applicant name is required"
  \/ message = "Amount must be greater than 0"
  \/ message = "Term months must be greater than 0"
  \/ message = "Interest rate is required and cannot be negative".
Proof.
  unfold validate.
  repeat match goal with
         | |- context [if ?c then _ else _] => destruct c
         end;
    intros H; inversion H; auto.
Qed.

Lemma create_invalid env input message ls :
  validate input = Some message ->
  create env input ls = (Throw (ValidationError message), ls).
Proof. intros H. unfold create. rewrite H. reflexivity. Qed.

End Validation.

(** C9.  [create] runs the checks in the order name, amount, term, rate and
    fails with the message of the first check that fails, leaving the store
    as it was: an input whose trimmed name is empty and whose amount is not
    positive fails with "Applicant name is required"; each of the four
    messages is given exactly when its check fails after all earlier checks
    passed; and no other message is ever given. *)
Theorem create_validation_order :
  (forall env input ls,
      JS.trim (LoanService.in_applicantName input) = "" ->
      (LoanService.in_amount input <= 0)%Q ->
      LoanService.create env input ls
      = (Throw (ValidationError "Applicant name is required"), ls))
  /\ (forall env input ls message,
        LoanService.validate input = Some message ->
        LoanService.create env input ls
        = (Throw (ValidationError message), ls))
  /\ (forall input,
        (LoanService.validate input = Some "Applicant name is required"
         <-> JS.trim (LoanService.in_applicantName input) = "")
        /\ (LoanService.validate input = Some "Amount must be greater than 0"
            <-> JS.trim (LoanService.in_applicantName input) <> ""
                /\ ~ (0 < LoanService.in_amount input)%Q)
        /\ (LoanService.validate input
              = Some "Term months must be greater than 0"
            <-> JS.trim (LoanService.in_applicantName input) <> ""
                /\ (0 < LoanService.in_amount input)%Q
                /\ ~ 0 < LoanService.in_termMonths input)
        /\ (LoanService.validate input
              = Some "Interest rate is required and cannot be negative"
            <-> JS.trim (LoanService.in_applicantName input) <> ""
                /\ (0 < LoanService.in_amount input)%Q
                /\ 0 < LoanService.in_termMonths input
                /\ ~ (0 <= LoanService.in_interestRate input)%Q))
  /\ (forall input message,
        LoanService.validate input = Some message ->
        message = "Applicant name is required"
        \/ message = "Amount must be greater than 0"
        \/ message = "Term months must be greater than 0"
        \/ message = "Interest rate is required and cannot be negative").
Proof.
  split; [| split; [| split]].
  - intros env input ls Hname _.
    apply create_invalid, validate_name, Hname.
  - intros env input ls message. apply create_invalid.
  - intros input.
    destruct (validate_cases input) as (H1 & H2 & H3 & H4 & _). auto.
  - exact validate_messages.
Qed.

Lemma create_validation_order_witness :
  JS.trim (LoanService.in_applicantName empty_name_zero_amount) = ""
  /\ (LoanService.in_amount empty_name_zero_amount <= 0)%Q
  /\ LoanService.create sample_env empty_name_zero_amount empty_storage
     = (Throw (ValidationError "Applicant name is required"), empty_storage).
Proof.
  assert (Hn : JS.trim (LoanService.in_applicantName empty_name_zero_amount)
               = "") by reflexivity.
  assert (Ha : (LoanService.in_amount empty_name_zero_amount <= 0)%Q)
    by (vm_compute; discriminate).
  split; [exact Hn |]. split; [exact Ha |].
  exact (proj1 create_validation_order sample_env empty_name_zero_amount
           empty_storage Hn Ha).
Defined.

(** ** The decision rule *)

Section Decision.
Import Loan LoanService.

Lemma decide_approved loan :
  decide loan = approved
  <-> (amount loan <= 100000)%Q /\ termMonths loan <= 60.
Proof.
  unfold decide.
  destruct (Qle_bool (amount loan) 100000) eqn:Ea;
    destruct (termMonths loan <=? 60) eqn:Et; simpl;
    rewrite <- Qle_bool_iff, <- Z.leb_le, Ea, Et;
    split; intros H; try discriminate H; try reflexivity;
    try (destruct H; congruence); auto.
Qed.

Lemma decide_rejected loan :
  decide loan = rejected
  <-> ~ ((amount loan <= 100000)%Q /\ termMonths loan <= 60).
Proof.
  rewrite <- decide_approved.
  unfold decide.
  destruct (Qle_bool (amount loan) 100000 && (termMonths loan <=? 60));
    split; intros H; congruence.
Qed.

Lemma getLoans_array ls loans :
  tredgate_loans ls = Some (ArrayJSON loans) ->
  getLoans ls = (Normal (VArray loans), ls).
Proof.
  intros H. unfold getLoans, try_catch, ebind, getItem_loans; simpl.
  rewrite H. reflexivity.
Qed.

(** The record that [find] returns is the one [setStatus] writes. *)
Lemma find_setStatus wanted s loans loan :
  List.find (hasId wanted) loans = Some loan ->
  List.find (hasId wanted) (setStatus wanted s loans)
  = Some (with_status s loan).
Proof.
  induction loans as [| l rest IH]; simpl; [discriminate |].
  destruct (hasId wanted l) eqn:E; simpl.
  - intros [= <-]. unfold hasId in *. simpl. rewrite E. reflexivity.
  - rewrite E. exact IH.
Qed.

Lemma autoDecide_found ls loans loan wanted :
  tredgate_loans ls = Some (ArrayJSON loans) ->
  List.find (hasId wanted) loans = Some loan ->
  autoDecide wanted ls
  = (Normal (status loan, decide loan),
     {| tredgate_loans :=
          Some (ArrayJSON (setStatus wanted (decide loan) loans));
        tredgate_audit_logs := tredgate_audit_logs ls |}).
Proof.
  intros Hls Hfind. unfold autoDecide, ebind.
  rewrite (getLoans_array ls loans Hls). simpl.
  rewrite Hfind. reflexivity.
Qed.

End Decision.

(** C3.  For a pending loan in the store, [autoDecide] reports the change
    from [pending] to the decided status and stores that status on the
    loan; the decided status is [approved] exactly when
    [amount <= 100000] and [termMonths <= 60], and [rejected] otherwise.
    At amount 100000 and term 60 it is [approved]; at amount 100001 and
    term 60, and at amount 100000 and term 61, it is [rejected]. *)
Theorem autoDecide_rule :
  (forall ls loans loan wanted,
      tredgate_loans ls = Some (ArrayJSON loans) ->
      List.find (LoanService.hasId wanted) loans = Some loan ->
      Loan.status loan = Loan.pending ->
      let new :=
        if Qle_bool (Loan.amount loan) 100000 && (Loan.termMonths loan <=? 60)
        then Loan.approved else Loan.rejected in
      completion (LoanService.autoDecide wanted ls)
      = Normal (Loan.pending, new)
      /\ List.find (LoanService.hasId wanted)
           (UI.stored_loans (final (LoanService.autoDecide wanted ls)))
         = Some (Loan.with_status new loan)
      /\ (new = Loan.approved
          <-> (Loan.amount loan <= 100000)%Q /\ Loan.termMonths loan <= 60)
      /\ (new = Loan.rejected
          <-> ~ ((Loan.amount loan <= 100000)%Q
                /\ Loan.termMonths loan <= 60)))
  /\ LoanService.decide (pending_loan 100000 60) = Loan.approved
  /\ LoanService.decide (pending_loan 100001 60) = Loan.rejected
  /\ LoanService.decide (pending_loan 100000 61) = Loan.rejected.
Proof.
  split; [| repeat split; reflexivity].
  intros ls loans loan wanted Hls Hfind Hpending new.
  rewrite (autoDecide_found ls loans loan wanted Hls Hfind).
  unfold completion, final, UI.stored_loans; simpl.
  rewrite Hpending. fold (LoanService.decide loan) in new. subst new.
  split; [reflexivity |]. split; [apply find_setStatus, Hfind |].
  split; [apply decide_approved | apply decide_rejected].
Qed.

Lemma autoDecide_rule_witness :
  LoanService.autoDecide "b" (store_of [pending_loan 100000 60])
  = (Normal (Loan.pending, Loan.approved),
     store_of [Loan.with_status Loan.approved (pending_loan 100000 60)])
  /\ completion
       (LoanService.autoDecide "b" (store_of [pending_loan 100001 60]))
     = Normal (Loan.pending, Loan.rejected).
Proof.
  split; [reflexivity |].
  exact (proj1 (proj1 autoDecide_rule
                  (store_of [pending_loan 100001 60])
                  [pending_loan 100001 60] (pending_loan 100001 60) "b"
                  eq_refl eq_refl eq_refl)).
Defined.

(** ** The monthly payment *)

(** The payment of 50000 at rate zero over 36 months is 50000 / 36, which
    rounds to 1388.89. *)
Example zero_interest_payment :
  (LoanService.calculateMonthlyPayment zero_interest_loan == 50000 # 36)%Q.
Proof. vm_compute. reflexivity. Qed.

(** The payment of 50000 at 0.08 over 24 months lies between 2261.36 and
    2261.37. *)
Example john_doe_payment :
  (226136 # 100 < LoanService.calculateMonthlyPayment john_doe_loan)%Q
  /\ (LoanService.calculateMonthlyPayment john_doe_loan < 226137 # 100)%Q.
Proof. split; vm_compute; reflexivity. Qed.

Lemma Qeq_bool_comp (a b c d : Q) :
  (a == b)%Q -> (c == d)%Q -> Qeq_bool a c = Qeq_bool b d.
Proof.
  intros Hab Hcd.
  destruct (Qeq_bool a c) eqn:E1, (Qeq_bool b d) eqn:E2; try reflexivity.
  - apply Qeq_bool_eq in E1. apply Qeq_bool_neq in E2.
    exfalso. apply E2. rewrite <- Hab, <- Hcd. exact E1.
  - apply Qeq_bool_neq in E1. apply Qeq_bool_eq in E2.
    exfalso. apply E1. rewrite Hab, Hcd. exact E2.
Qed.

(** The payment depends on the amount, the rate and the term only, and on
    the numbers they are. *)
Lemma calculateMonthlyPayment_pure loan loan' :
  (Loan.amount loan == Loan.amount loan')%Q ->
  (Loan.interestRate loan == Loan.interestRate loan')%Q ->
  Loan.termMonths loan = Loan.termMonths loan' ->
  (LoanService.calculateMonthlyPayment loan
   == LoanService.calculateMonthlyPayment loan')%Q.
Proof.
  intros Ha Hr Hn. unfold LoanService.calculateMonthlyPayment.
  rewrite (Qeq_bool_comp _ _ 0 0 Hr (Qeq_refl 0)), Hn.
  destruct (Qeq_bool (Loan.interestRate loan') 0); cbv zeta.
  - rewrite Ha. reflexivity.
  - rewrite Ha, Hr. reflexivity.
Qed.

Lemma Qpower_succ (a : Q) (k : nat) :
  (~ a == 0 -> a ^ Z.of_nat (S k) == a ^ Z.of_nat k * a)%Q.
Proof.
  intros Ha. rewrite Nat2Z.inj_succ. unfold Z.succ.
  rewrite Qpower_plus by exact Ha. reflexivity.
Qed.

Lemma growth_at_least_one (r : Q) (k : nat) :
  (0 < r -> 1 <= (1 + r) ^ Z.of_nat k)%Q.
Proof.
  intros Hr. induction k as [| k IH].
  - change ((1 + r) ^ Z.of_nat 0)%Q with 1%Q. lra.
  - rewrite Qpower_succ by lra.
    set (p := ((1 + r) ^ Z.of_nat k)%Q) in *. nra.
Qed.

Lemma growth_above_one (r : Q) (n : Z) :
  (0 < r)%Q -> 1 <= n -> (1 < (1 + r) ^ n)%Q.
Proof.
  intros Hr Hn.
  assert (Ek : n = Z.of_nat (S (Z.to_nat (n - 1)))) by lia.
  rewrite Ek, Qpower_succ by lra.
  pose proof (growth_at_least_one r (Z.to_nat (n - 1)) Hr) as H1.
  set (p := ((1 + r) ^ Z.of_nat (Z.to_nat (n - 1)))%Q) in *. nra.
Qed.

(** For a loan of the data model neither branch divides by zero. *)
Lemma payment_defined (loan : Loan.LoanApplication) :
  0 < Loan.termMonths loan -> (0 <= Loan.interestRate loan)%Q ->
  ~ (inject_Z (Loan.termMonths loan) == 0)%Q
  /\ (~ (Loan.interestRate loan == 0)%Q ->
      (0 < (1 + Loan.interestRate loan / 12) ^ Loan.termMonths loan - 1)%Q).
Proof.
  intros Hn Hr. split.
  - intros H. assert (0 < inject_Z (Loan.termMonths loan))%Q.
    { change 0%Q with (inject_Z 0). rewrite <- Zlt_Qlt. exact Hn. }
    lra.
  - intros Hne.
    assert (Hpos : (0 < Loan.interestRate loan / 12)%Q).
    { apply Qlt_shift_div_l; lra. }
    pose proof (growth_above_one _ (Loan.termMonths loan) Hpos ltac:(lia)).
    lra.
Qed.

(** C2.  For every loan, [calculateMonthlyPayment(loan)] is
    [amount / termMonths] when [interestRate = 0], and otherwise
    [amount * r * (1+r)^n / ((1+r)^n - 1)] where [r = interestRate / 12]
    and [n = termMonths]; it is a function of the amount, the rate and the
    term alone; and for a loan of the data model, whose term is positive
    and whose rate is not negative, neither formula divides by zero. *)
Theorem monthly_payment_formula (loan : Loan.LoanApplication) :
  ((Loan.interestRate loan == 0)%Q ->
   (LoanService.calculateMonthlyPayment loan
    == Loan.amount loan / inject_Z (Loan.termMonths loan))%Q)
  /\ (~ (Loan.interestRate loan == 0)%Q ->
      let r := (Loan.interestRate loan / 12)%Q in
      let n := Loan.termMonths loan in
      (LoanService.calculateMonthlyPayment loan
       == Loan.amount loan * r * (1 + r) ^ n / ((1 + r) ^ n - 1))%Q)
  /\ (forall loan',
        (Loan.amount loan == Loan.amount loan')%Q ->
        (Loan.interestRate loan == Loan.interestRate loan')%Q ->
        Loan.termMonths loan = Loan.termMonths loan' ->
        (LoanService.calculateMonthlyPayment loan
         == LoanService.calculateMonthlyPayment loan')%Q)
  /\ (0 < Loan.termMonths loan -> (0 <= Loan.interestRate loan)%Q ->
      ~ (inject_Z (Loan.termMonths loan) == 0)%Q
      /\ (~ (Loan.interestRate loan == 0)%Q ->
          (0 < (1 + Loan.interestRate loan / 12) ^ Loan.termMonths loan - 1)
          %Q)).
Proof.
  split; [| split; [| split]].
  - intros Hrate. unfold LoanService.calculateMonthlyPayment.
    apply Qeq_bool_iff in Hrate. rewrite Hrate. reflexivity.
  - intros Hrate r n. unfold LoanService.calculateMonthlyPayment.
    destruct (Qeq_bool (Loan.interestRate loan) 0) eqn:E.
    + apply Qeq_bool_eq in E. contradiction.
    + reflexivity.
  - intros loan'. apply calculateMonthlyPayment_pure.
  - apply payment_defined.
Qed.

Lemma monthly_payment_formula_witness :
  (Loan.interestRate zero_interest_loan == 0)%Q
  /\ ~ (Loan.interestRate john_doe_loan == 0)%Q
  /\ (LoanService.calculateMonthlyPayment zero_interest_loan
      == 50000 / inject_Z 36)%Q
  /\ (LoanService.calculateMonthlyPayment john_doe_loan
      == 50000 * ((8 # 100) / 12) * (1 + (8 # 100) / 12) ^ 24
         / ((1 + (8 # 100) / 12) ^ 24 - 1))%Q.
Proof.
  assert (H0 : (Loan.interestRate zero_interest_loan == 0)%Q) by reflexivity.
  assert (H1 : ~ (Loan.interestRate john_doe_loan == 0)%Q) by discriminate.
  split; [exact H0 |]. split; [exact H1 |]. split.
  - exact (proj1 (monthly_payment_formula zero_interest_loan) H0).
  - exact (proj1 (proj2 (monthly_payment_formula john_doe_loan)) H1).
Defined.

(** ** Runs of the service functions *)

Section Runs.
Import Loan LoanService.

Lemma getAuditLogs_loaded ls :
  getAuditLogs ls = (Normal (loaded (tredgate_audit_logs ls)), ls).
Proof.
  unfold getAuditLogs, try_catch, ebind, getItem_audit; simpl.
  destruct (tredgate_audit_logs ls) as [[raw | l |] |]; simpl;
    try reflexivity.
  destruct (JS.isEmpty raw); reflexivity.
Qed.


(** [addAuditLog] throws without writing when what it loaded is not an
    array; otherwise it asks for the loaded log with the entry pushed to be
    stored, which the browser accepts or refuses. *)
Lemma addAuditLog_run env entry ls :
  addAuditLog env entry ls
  = match loaded (tredgate_audit_logs ls) with
    | VArray _ =>
        if setItem_accepts env (appended ls entry)
        then (Normal tt, appended ls entry)
        else (Throw QuotaExceededError, ls)
    | VNotArray => (Throw TypeError, ls)
    end.
Proof.
  unfold addAuditLog, ebind. rewrite getAuditLogs_loaded.
  unfold appended, audit_log.
  destruct (loaded (tredgate_audit_logs ls)); reflexivity.
Qed.

Lemma loaded_array_or_not {A} (cell : option (StoredText A)) :
  cell <> Some OtherJSON -> loaded cell = VArray (elements (loaded cell)).
Proof.
  destruct cell as [[raw | l |] |]; simpl; intros H;
    try reflexivity; congruence.
Qed.

Lemma loaded_not_array {A} (cell : option (StoredText A)) :
  loaded cell = VNotArray <-> cell = Some OtherJSON.
Proof.
  destruct cell as [[raw | l |] |]; simpl; split; congruence.
Qed.

(** The three ways a call of [addAuditLog] ends, here followed by the
    return of a value. *)
Lemma append_outcome {A} env entry (x : A) ls :
  (tredgate_audit_logs ls = Some OtherJSON
   /\ (addAuditLog env entry ;; eret x) ls = (Throw TypeError, ls))
  \/ (tredgate_audit_logs ls <> Some OtherJSON
      /\ setItem_accepts env (appended ls entry) = true
      /\ (addAuditLog env entry ;; eret x) ls
         = (Normal x, appended ls entry))
  \/ (tredgate_audit_logs ls <> Some OtherJSON
      /\ setItem_accepts env (appended ls entry) = false
      /\ (addAuditLog env entry ;; eret x) ls
         = (Throw QuotaExceededError, ls)).
Proof.
  unfold ebind. rewrite addAuditLog_run.
  destruct (loaded (tredgate_audit_logs ls)) as [old |] eqn:E.
  - assert (Hcell : tredgate_audit_logs ls <> Some OtherJSON).
    { intros H. apply loaded_not_array in H. congruence. }
    destruct (setItem_accepts env (appended ls entry)); auto.
  - left. apply loaded_not_array in E. auto.
Qed.

(** A call that ends with [addAuditLog] is a call that ends with
    [addAuditLog] and the return of [tt]. *)
Lemma append_last env entry ls :
  addAuditLog env entry ls = (addAuditLog env entry ;; eret tt) ls.
Proof.
  unfold ebind. destruct (addAuditLog env entry ls) as [[[] | e] ls'];
    reflexivity.
Qed.

Lemma audit_log_appended ls entry :
  audit_log (appended ls entry) = (audit_log ls ++ [entry])%list.
Proof. reflexivity. Qed.








End Runs.

Section AuditedRuns.
Import Loan LoanService.









End AuditedRuns.

(** ** Audit completeness *)

Section Completeness.
Import Loan LoanService.










End Completeness.


(** The same on a store in good order, in a browser whose quota is used
    up: the approval is stored, [addAuditLog] throws a
    [QuotaExceededError], and the log is as it was. *)
Example unlogged_approval_when_full :
  UI.stored_loans
    (App.storage (final (App.handleApprove full_env "1" one_pending_app)))
  = [Loan.with_status Loan.approved john_doe_loan]
  /\ completion (App.handleApprove full_env "1" one_pending_app)
     = Throw QuotaExceededError
  /\ audit_log
       (App.storage (final (App.handleApprove full_env "1" one_pending_app)))
     = audit_log one_pending_store.
Proof. repeat split; reflexivity. Qed.



(** ** The status of a loan over the runs of the application *)

Section Lifecycle.
Import Loan LoanService.
















End Lifecycle.

Section Steps.
Import Loan LoanService.










End Steps.


(** The same from a store in good order, in a browser whose quota is used
    up: the approval is stored, the append throws, the list is not
    refreshed, and the click on "reject" stores the approved loan as
    rejected. *)
Example rejected_after_unlogged_approval :
  UI.well_formed one_pending_store
  /\ UI.step one_pending_app approve_click_full after_unlogged_approval
  /\ UI.stored_loans (App.storage after_unlogged_approval)
     = [Loan.with_status Loan.approved john_doe_loan]
  /\ UI.enabled after_unlogged_approval reject_click_full = true
  /\ UI.stored_loans
       (App.storage (final (UI.handle reject_click_full
                              after_unlogged_approval)))
     = [Loan.with_status Loan.rejected john_doe_loan].
Proof.
  split.
  { split; [discriminate |].
    simpl. constructor; [intros [] | constructor]. }
  split; [split; reflexivity |]. repeat split; reflexivity.
Qed.





(** After the approval the row has no status button left, and the log has
    the two entries. *)
Example no_button_after_approval :
  UI.enabled after_approval (UI.Row sample_env (LoanList.reject "1")) = false
  /\ UI.enabled after_approval (UI.Row sample_env (LoanList.autoDecide "1"))
     = false
  /\ UI.enabled after_approval (UI.Row sample_env (LoanList.delete "1"))
     = true
  /\ audit_log (App.storage after_approval)
     = [created_entry sample_env john_doe_loan;
        status_entry sample_env john_doe_loan Loan.approved false].
Proof. repeat split; reflexivity. Qed.

(** The guard is the list's: the service function itself, called on an
    approved loan, sets the status it is given. *)
Example updateStatus_not_guarded :
  UI.stored_loans
    (final (LoanService.updateStatus "1" Loan.rejected
              (store_of [Loan.with_status Loan.approved john_doe_loan])))
  = [Loan.with_status Loan.rejected john_doe_loan].
Proof. reflexivity. Qed.

(** The end-to-end scenario of the spec: create, auto-decide, delete. *)
Example end_to_end :
  let input :=
    {| LoanService.in_applicantName := "John Doe";
       LoanService.in_amount := 50000;
       LoanService.in_termMonths := 36;
       LoanService.in_interestRate := 8 # 100 |} in
  let i := generateId sample_env in
  match UI.run [UI.Submit sample_env sample_env input;
                UI.Row sample_env (LoanList.autoDecide i);
                UI.Row sample_env (LoanList.delete i)]
          (App.mounted empty_storage) with
  | Some st =>
      UI.stored_loans (App.storage st) = []
      /\ map actionType (audit_log (App.storage st))
         = [loan_created; status_changed_auto; loan_deleted]
      /\ map previousStatus (audit_log (App.storage st))
         = [None; Some "pending"; Some "approved"]
      /\ map newStatus (audit_log (App.storage st))
         = [None; Some "approved"; None]
  | None => False
  end.
Proof. vm_compute. repeat split; reflexivity. Qed.

(** * Further properties of the code *)

(** ** Appending to the audit log *)

(** X1.  [addAuditLog] never writes the loans key.  On a stored array it
    asks for the array with the entry pushed to be stored; when the audit
    key is unset or holds text that is not JSON, for a log of the entry
    alone, so that what was there is replaced.  The store is written and
    the call returns when the browser accepts it; otherwise the call throws
    a [QuotaExceededError] and writes nothing.  When the key holds JSON
    that is not an array the call throws a [TypeError] and writes
    nothing. *)
Theorem addAuditLog_cases (env : Env) (entry : AuditLogEntry)
  (ls : localStorage) :
  tredgate_loans (final (addAuditLog env entry ls)) = tredgate_loans ls
  /\ (forall old,
        tredgate_audit_logs ls = Some (ArrayJSON old) ->
        let ls' :=
          {| tredgate_loans := tredgate_loans ls;
             tredgate_audit_logs := Some (ArrayJSON (old ++ [entry])%list) |}
        in
        addAuditLog env entry ls
        = if setItem_accepts env ls' then (Normal tt, ls')
          else (Throw QuotaExceededError, ls))
  /\ (tredgate_audit_logs ls = None
      \/ (exists raw, tredgate_audit_logs ls = Some (NotJSON raw)) ->
      let ls' :=
        {| tredgate_loans := tredgate_loans ls;
           tredgate_audit_logs := Some (ArrayJSON [entry]) |} in
      addAuditLog env entry ls
      = if setItem_accepts env ls' then (Normal tt, ls')
        else (Throw QuotaExceededError, ls))
  /\ (tredgate_audit_logs ls = Some OtherJSON ->
      addAuditLog env entry ls = (Throw TypeError, ls)).
Proof.
  rewrite addAuditLog_run. unfold appended, audit_log. repeat apply conj.
  - destruct (loaded (tredgate_audit_logs ls)); [| reflexivity].
    destruct (setItem_accepts env _); reflexivity.
  - intros old H. rewrite H. reflexivity.
  - intros [H | [raw H]]; rewrite H; reflexivity.
  - intros H. rewrite H. reflexivity.
Qed.

Lemma addAuditLog_cases_witness :
  (tredgate_audit_logs invalid_json_store = None
   \/ exists raw, tredgate_audit_logs invalid_json_store = Some (NotJSON raw))
  /\ addAuditLog sample_env alice_entry invalid_json_store
     = (Normal tt,
        {| tredgate_loans := None;
           tredgate_audit_logs := Some (ArrayJSON [alice_entry]) |})
  /\ addAuditLog full_env alice_entry invalid_json_store
     = (Throw QuotaExceededError, invalid_json_store).
Proof.
  assert (H : tredgate_audit_logs invalid_json_store = None
              \/ exists raw,
                  tredgate_audit_logs invalid_json_store = Some (NotJSON raw)).
  { right. exists "invalid-json". reflexivity. }
  split; [exact H |]. split.
  - exact (proj1 (proj2 (proj2 (addAuditLog_cases sample_env alice_entry
                                  invalid_json_store))) H).
  - exact (proj1 (proj2 (proj2 (addAuditLog_cases full_env alice_entry
                                  invalid_json_store))) H).
Defined.

(** Whatever a run of [addAuditLogs] comes to, the log it leaves is the
    earlier log followed by the entries of the calls that returned, which
    are the first of the list. *)
Lemma addAuditLogs_prefix env entries :
  forall ls,
    tredgate_loans (final (addAuditLogs env entries ls)) = tredgate_loans ls
    /\ exists done rest,
        entries = (done ++ rest)%list
        /\ audit_log (final (addAuditLogs env entries ls))
           = (audit_log ls ++ done)%list
        /\ (completion (addAuditLogs env entries ls) = Normal tt
            <-> rest = []).
Proof.
  induction entries as [| e entries IH]; intros ls.
  - split; [reflexivity |]. exists [], [].
    split; [reflexivity |]. split; [symmetry; apply app_nil_r |].
    split; reflexivity.
  - cbn [addAuditLogs].
    destruct (append_outcome env e tt ls)
      as [[Ha Hr] | [(Ha & Hacc & Hr) | (Ha & Hacc & Hr)]];
      rewrite <- append_last in Hr; unfold ebind; rewrite Hr.
    + split; [reflexivity |]. exists [], (e :: entries).
      split; [reflexivity |]. split; [symmetry; apply app_nil_r |].
      split; discriminate.
    + destruct (IH (appended ls e)) as (Hl & done & rest & -> & Hlog & Hc).
      split; [exact Hl |]. exists (e :: done), rest.
      split; [reflexivity |]. split; [| exact Hc].
      rewrite Hlog, audit_log_appended, <- app_assoc. reflexivity.
    + split; [reflexivity |]. exists [], (e :: entries).
      split; [reflexivity |]. split; [symmetry; apply app_nil_r |].
      split; discriminate.
Qed.

Lemma addAuditLogs_returns env entries :
  (forall x, setItem_accepts env x = true) ->
  forall ls,
    tredgate_audit_logs ls <> Some OtherJSON ->
    completion (addAuditLogs env entries ls) = Normal tt
    /\ tredgate_audit_logs (final (addAuditLogs env entries ls))
       <> Some OtherJSON.
Proof.
  intros Hroom. induction entries as [| e entries IH]; intros ls Hls.
  - split; [reflexivity | exact Hls].
  - cbn [addAuditLogs].
    destruct (append_outcome env e tt ls)
      as [[Ha Hr] | [(Ha & Hacc & Hr) | (Ha & Hacc & Hr)]];
      rewrite <- append_last in Hr; unfold ebind; rewrite Hr.
    + contradiction.
    + apply IH. discriminate.
    + rewrite Hroom in Hacc. discriminate Hacc.
Qed.

(** X2.  The log is append-only under [addAuditLog].  After entries were
    appended one after the other, each call made when the one before
    returned, the loans key is as it was and the log is the earlier log
    followed by the entries of the calls that returned, in the order of
    the calls; these are all the entries exactly when the last call
    returned.  Unless the audit key holds JSON that is not an array, in a
    browser that has room every call returns and [getAuditLogs] then gives
    the earlier log followed by all the entries. *)
Theorem addAuditLogs_in_order (env : Env) (entries : list AuditLogEntry)
  (ls : localStorage) :
  tredgate_loans (final (addAuditLogs env entries ls)) = tredgate_loans ls
  /\ (exists done rest,
        entries = (done ++ rest)%list
        /\ audit_log (final (addAuditLogs env entries ls))
           = (audit_log ls ++ done)%list
        /\ (completion (addAuditLogs env entries ls) = Normal tt
            <-> rest = []))
  /\ (tredgate_audit_logs ls <> Some OtherJSON ->
      (forall x, setItem_accepts env x = true) ->
      completion (addAuditLogs env entries ls) = Normal tt
      /\ getAuditLogs (final (addAuditLogs env entries ls))
         = (Normal (VArray (audit_log ls ++ entries)%list),
            final (addAuditLogs env entries ls))).
Proof.
  destruct (addAuditLogs_prefix env entries ls)
    as (Hl & done & rest & E & Hlog & Hc).
  split; [exact Hl |]. split; [exists done, rest; auto |].
  intros Hls Hroom.
  destruct (addAuditLogs_returns env entries Hroom ls Hls) as [Hn Hcell].
  split; [exact Hn |].
  rewrite getAuditLogs_loaded, (loaded_array_or_not _ Hcell).
  fold (audit_log (final (addAuditLogs env entries ls))).
  rewrite Hlog. apply Hc in Hn. subst rest.
  rewrite E, app_nil_r. reflexivity.
Qed.

Lemma addAuditLogs_in_order_witness :
  tredgate_audit_logs invalid_json_store <> Some OtherJSON
  /\ (forall x, setItem_accepts sample_env x = true)
  /\ getAuditLogs (final (addAuditLogs sample_env test_logs invalid_json_store))
     = (Normal (VArray test_logs),
        final (addAuditLogs sample_env test_logs invalid_json_store)).
Proof.
  assert (H : tredgate_audit_logs invalid_json_store <> Some OtherJSON)
    by discriminate.
  assert (Hroom : forall x, setItem_accepts sample_env x = true)
    by (intros x; reflexivity).
  split; [exact H |]. split; [exact Hroom |].
  exact (proj2 (proj2 (proj2 (addAuditLogs_in_order sample_env test_logs
                                invalid_json_store)) H Hroom)).
Defined.

(** ** The filter stage *)

Lemma filterLogsByActionType_typed logs wanted :
  wanted <> "" -> wanted <> "all" ->
  filterLogsByActionType logs wanted
  = List.filter (hasActionType wanted) logs.
Proof.
  intros Hempty Hall. unfold filterLogsByActionType.
  destruct (JS.isEmpty wanted) eqn:E.
  { apply isEmpty_iff in E. contradiction. }
  destruct (String.eqb wanted "all") eqn:E'.
  { apply String.eqb_eq in E'. contradiction. }
  reflexivity.
Qed.

(** X3.  With a filter other than the empty string and ["all"], the filter
    stage keeps exactly the entries whose action type is that string,
    letter for letter; a string that is none of the four action types
    (such as one in capitals) keeps nothing.  Filtering twice is filtering
    once, and the result is never longer than the list. *)
Theorem filterLogsByActionType_keeps (logs : list AuditLogEntry)
  (wanted : string) :
  (wanted <> "" -> wanted <> "all" ->
   (forall e,
       In e (filterLogsByActionType logs wanted)
       <-> In e logs /\ actionType_literal (actionType e) = wanted)
   /\ ((forall a, actionType_literal a <> wanted) ->
       filterLogsByActionType logs wanted = []))
  /\ filterLogsByActionType (filterLogsByActionType logs wanted) wanted
     = filterLogsByActionType logs wanted
  /\ (length (filterLogsByActionType logs wanted) <= length logs)%nat.
Proof.
  split; [| split].
  - intros Hempty Hall.
    rewrite (filterLogsByActionType_typed logs wanted Hempty Hall). split.
    + intros e. rewrite List.filter_In. unfold hasActionType.
      rewrite String.eqb_eq. reflexivity.
    + intros Hnone. induction logs as [| e rest IH]; [reflexivity |].
      simpl. unfold hasActionType at 1.
      destruct (String.eqb_spec (actionType_literal (actionType e)) wanted)
        as [E | _]; [destruct (Hnone _ E) | exact IH].
  - unfold filterLogsByActionType.
    destruct (JS.isEmpty wanted || String.eqb wanted "all");
      [reflexivity |].
    rewrite filter_twice. apply List.filter_ext.
    intros e. apply andb_diag.
  - unfold filterLogsByActionType.
    destruct (JS.isEmpty wanted || String.eqb wanted "all"); [lia |].
    apply List.filter_length_le.
Qed.

Lemma filterLogsByActionType_keeps_witness :
  "loan_created" <> "" /\ "loan_created" <> "all"
  /\ (In test_log_3 (filterLogsByActionType test_logs "loan_created")
      <-> In test_log_3 test_logs
          /\ actionType_literal (actionType test_log_3) = "loan_created").
Proof.
  assert (H1 : "loan_created" <> "") by discriminate.
  assert (H2 : "loan_created" <> "all") by discriminate.
  split; [exact H1 |]. split; [exact H2 |].
  exact (proj1 (proj1 (filterLogsByActionType_keeps test_logs "loan_created")
                  H1 H2) test_log_3).
Defined.

(** The filter is the string of the select, not a pattern. *)
Example filter_is_exact :
  filterLogsByActionType test_logs "LOAN_CREATED" = []
  /\ filterLogsByActionType test_logs " all" = []
  /\ filterLogsByActionType test_logs "loan" = [].
Proof. repeat split; reflexivity. Qed.

(** ** The search stage *)

Section Strings.

Lemma toLowerCase_char_idem c :
  JS.toLowerCase_char (JS.toLowerCase_char c) = JS.toLowerCase_char c.
Proof. destruct c as [[] [] [] [] [] [] [] []]; reflexivity. Qed.

(** Lower-casing turns no letter into white space and no white space into
    a letter. *)
Lemma isWhiteSpace_toLowerCase_char c :
  JS.isWhiteSpace (JS.toLowerCase_char c) = JS.isWhiteSpace c.
Proof. destruct c as [[] [] [] [] [] [] [] []]; reflexivity. Qed.

Lemma toLowerCase_idem s :
  JS.toLowerCase (JS.toLowerCase s) = JS.toLowerCase s.
Proof.
  induction s as [| c s IH]; simpl; [reflexivity |].
  rewrite toLowerCase_char_idem, IH. reflexivity.
Qed.

Lemma trimStart_toLowerCase s :
  JS.trimStart (JS.toLowerCase s) = JS.toLowerCase (JS.trimStart s).
Proof.
  induction s as [| c s IH]; simpl; [reflexivity |].
  rewrite isWhiteSpace_toLowerCase_char.
  destruct (JS.isWhiteSpace c); [exact IH | reflexivity].
Qed.

Lemma trimEnd_toLowerCase s :
  JS.trimEnd (JS.toLowerCase s) = JS.toLowerCase (JS.trimEnd s).
Proof.
  induction s as [| c s IH]; simpl; [reflexivity |].
  rewrite IH, isWhiteSpace_toLowerCase_char.
  destruct (JS.trimEnd s); simpl.
  - destruct (JS.isWhiteSpace c); reflexivity.
  - reflexivity.
Qed.

Lemma trim_toLowerCase s :
  JS.trim (JS.toLowerCase s) = JS.toLowerCase (JS.trim s).
Proof.
  unfold JS.trim. rewrite trimStart_toLowerCase, trimEnd_toLowerCase.
  reflexivity.
Qed.

Lemma trimStart_clean s : starts_clean (JS.trimStart s).
Proof.
  induction s as [| c s IH]; simpl; [exact I |].
  destruct (JS.isWhiteSpace c) eqn:E; [exact IH | exact E].
Qed.

Lemma trimStart_of_clean s : starts_clean s -> JS.trimStart s = s.
Proof.
  destruct s as [| c s]; simpl; [reflexivity |].
  intros ->. reflexivity.
Qed.

Lemma trimEnd_clean s : starts_clean s -> starts_clean (JS.trimEnd s).
Proof.
  destruct s as [| c s]; simpl; [trivial |].
  intros E. destruct (JS.trimEnd s); simpl; [rewrite E |]; exact E.
Qed.

Lemma trimEnd_idem s : JS.trimEnd (JS.trimEnd s) = JS.trimEnd s.
Proof.
  induction s as [| c s IH]; simpl; [reflexivity |].
  destruct (JS.trimEnd s) as [| d t] eqn:E.
  - destruct (JS.isWhiteSpace c) eqn:W; simpl; [reflexivity |].
    rewrite W. reflexivity.
  - simpl. simpl in IH. rewrite IH. reflexivity.
Qed.

Lemma trim_idem s : JS.trim (JS.trim s) = JS.trim s.
Proof.
  unfold JS.trim.
  rewrite (trimStart_of_clean (JS.trimEnd (JS.trimStart s))).
  - apply trimEnd_idem.
  - apply trimEnd_clean, trimStart_clean.
Qed.

Lemma prefix_trimEnd s : String.prefix (JS.trimEnd s) s = true.
Proof.
  induction s as [| c s IH]; simpl; [reflexivity |].
  destruct (JS.trimEnd s) as [| d t] eqn:E.
  - destruct (JS.isWhiteSpace c); simpl; [reflexivity |].
    destruct (ascii_dec c c); [exact IH | congruence].
  - simpl. destruct (ascii_dec c c); [exact IH | congruence].
Qed.

Lemma includes_prefix s t :
  String.prefix t s = true -> JS.includes s t = true.
Proof. intros H. destruct s; simpl in *; rewrite H; reflexivity. Qed.

Lemma includes_tail c s t :
  JS.includes s t = true -> JS.includes (String c s) t = true.
Proof. intros H. simpl. rewrite H. apply orb_true_r. Qed.

(** A text contains what is left of it after trimming. *)
Lemma includes_trim s : JS.includes s (JS.trim s) = true.
Proof.
  unfold JS.trim.
  induction s as [| c s IH]; [reflexivity |].
  cbn [JS.trimStart]. destruct (JS.isWhiteSpace c).
  - apply includes_tail, IH.
  - apply includes_prefix, prefix_trimEnd.
Qed.

Lemma searchLogs_blank logs s :
  searchLogs logs s
  = if blank s then logs
    else List.filter (matchesTerm (JS.trim (JS.toLowerCase s))) logs.
Proof. unfold searchLogs, blank. destruct s; reflexivity. Qed.

Lemma blank_toLowerCase s : blank (JS.toLowerCase s) = blank s.
Proof.
  unfold blank. rewrite trim_toLowerCase.
  destruct (JS.trim s); reflexivity.
Qed.

Lemma blank_trim s : blank (JS.trim s) = blank s.
Proof. unfold blank. rewrite trim_idem. reflexivity. Qed.

End Strings.

(** X4.  The search does not depend on the case of the search term nor on
    white space around it: two terms that are equal once lower-cased give
    the same result, and a term gives the same result as the term
    trimmed. *)
Theorem searchLogs_term_insensitive (logs : list AuditLogEntry) :
  (forall s s',
      JS.toLowerCase s = JS.toLowerCase s' ->
      searchLogs logs s = searchLogs logs s')
  /\ (forall s, searchLogs logs (JS.trim s) = searchLogs logs s)
  /\ (forall s, searchLogs logs (JS.toLowerCase s) = searchLogs logs s).
Proof.
  split; [| split].
  - intros s s' E. rewrite !searchLogs_blank.
    rewrite <- (blank_toLowerCase s), <- (blank_toLowerCase s'), E.
    reflexivity.
  - intros s. rewrite !searchLogs_blank, blank_trim.
    rewrite <- trim_toLowerCase, trim_idem. reflexivity.
  - intros s. rewrite !searchLogs_blank, blank_toLowerCase, toLowerCase_idem.
    reflexivity.
Qed.

Lemma searchLogs_term_insensitive_witness :
  JS.toLowerCase "ALICE" = JS.toLowerCase "alice"
  /\ searchLogs test_logs "ALICE" = searchLogs test_logs "alice".
Proof.
  assert (H : JS.toLowerCase "ALICE" = JS.toLowerCase "alice")
    by reflexivity.
  split; [exact H |].
  exact (proj1 (searchLogs_term_insensitive test_logs) "ALICE" "alice" H).
Defined.

(** X5.  An entry of the list is always among the results of a search for
    its own applicant name and of a search for its own loan id, in any
    case and with white space around. *)
Theorem searchLogs_finds_own (logs : list AuditLogEntry) (e : AuditLogEntry)
  (s : string) :
  In e logs ->
  JS.toLowerCase (JS.trim s) = JS.toLowerCase (JS.trim (applicantName e))
  \/ JS.toLowerCase (JS.trim s) = JS.toLowerCase (JS.trim (loanId e)) ->
  In e (searchLogs logs s).
Proof.
  intros Hin Hs. rewrite searchLogs_blank.
  destruct (blank s); [exact Hin |].
  apply List.filter_In. split; [exact Hin |].
  unfold matchesTerm. rewrite trim_toLowerCase.
  apply orb_true_iff.
  destruct Hs as [-> | ->]; [left | right];
    rewrite <- trim_toLowerCase; apply includes_trim.
Qed.

Lemma searchLogs_finds_own_witness :
  In test_log_3 test_logs
  /\ (JS.toLowerCase (JS.trim "  BOB JONES ")
      = JS.toLowerCase (JS.trim (applicantName test_log_3))
      \/ JS.toLowerCase (JS.trim "  BOB JONES ")
         = JS.toLowerCase (JS.trim (loanId test_log_3)))
  /\ In test_log_3 (searchLogs test_logs "  BOB JONES ").
Proof.
  assert (Hin : In test_log_3 test_logs) by (right; right; left; reflexivity).
  assert (Hs : JS.toLowerCase (JS.trim "  BOB JONES ")
               = JS.toLowerCase (JS.trim (applicantName test_log_3))
               \/ JS.toLowerCase (JS.trim "  BOB JONES ")
                  = JS.toLowerCase (JS.trim (loanId test_log_3)))
    by (left; reflexivity).
  split; [exact Hin |]. split; [exact Hs |].
  exact (searchLogs_finds_own test_logs test_log_3 "  BOB JONES " Hin Hs).
Defined.

(** ** The sort stage and the order of the stages *)

Section SortMore.

Variable Date_getTime : string -> option Z.

Local Abbreviation cmp := (compareTimestamps Date_getTime).
Local Abbreviation valid := (valid_timestamp Date_getTime).
Local Abbreviation before := (not_older Date_getTime).

Lemma sort_insert_front x l :
  Forall (before x) l -> sort_insert cmp x l = x :: l.
Proof.
  destruct l as [| y rest]; [reflexivity |].
  intros H. inversion H as [| ? ? (tx & ty & Ex & Ey & Hle) _]; subst.
  simpl. unfold sortCompare, compareTimestamps. rewrite Ex, Ey.
  destruct (0 <? ty - tx) eqn:E; [| reflexivity].
  apply Z.ltb_lt in E. lia.
Qed.

Lemma Array_sort_sorted_id l :
  StronglySorted before l -> Array_sort cmp l = l.
Proof.
  induction 1 as [| x rest Hs IH Hall]; simpl; [reflexivity |].
  rewrite IH. apply sort_insert_front, Hall.
Qed.

Lemma Permutation_filter {A} (p : A -> bool) (l l' : list A) :
  Permutation l l' -> Permutation (List.filter p l) (List.filter p l').
Proof.
  induction 1 as [| x l l' _ IH | x y l | l l' l'' _ IH1 _ IH2]; simpl.
  - apply perm_nil.
  - destruct (p x); [apply perm_skip |]; exact IH.
  - destruct (p x), (p y);
      first [apply perm_swap | apply Permutation_refl].
  - eapply perm_trans; eassumption.
Qed.

Lemma StronglySorted_filter {A} (R : A -> A -> Prop) (p : A -> bool) l :
  StronglySorted R l -> StronglySorted R (List.filter p l).
Proof.
  induction 1 as [| x rest Hs IH Hall]; simpl; [constructor |].
  destruct (p x); [| exact IH].
  constructor; [exact IH |].
  apply List.Forall_forall. intros y Hy.
  apply List.filter_In in Hy as [Hy _].
  rewrite List.Forall_forall in Hall. auto.
Qed.

Lemma filter_swap {A} (p q : A -> bool) l :
  List.filter p (List.filter q l) = List.filter q (List.filter p l).
Proof.
  rewrite !filter_twice. apply List.filter_ext. intros x. apply andb_comm.
Qed.

(** Sorting and then keeping the entries of [p] is keeping them and then
    sorting. *)
Lemma sort_filter_swap (p : AuditLogEntry -> bool) l :
  Forall valid l ->
  List.filter p (Array_sort cmp l) = Array_sort cmp (List.filter p l).
Proof.
  intros Hvalid. apply Array_sort_unique.
  - apply valid_filter, Hvalid.
  - apply Permutation_filter, Array_sort_Permutation.
  - apply StronglySorted_filter, Array_sort_sorted, Hvalid.
  - intros t. rewrite filter_swap, Array_sort_stable. apply filter_swap.
Qed.

End SortMore.

(** X6.  [sortLogsByTimestamp] gives back a list that is already newest
    first as it is, entries of equal time included; so for a list whose
    timestamps are dates, sorting twice is sorting once. *)
Theorem sortLogsByTimestamp_sorted_input
  (Date_getTime : string -> option Z) (logs : list AuditLogEntry) :
  (StronglySorted (not_older Date_getTime) logs ->
   sortLogsByTimestamp Date_getTime logs = logs)
  /\ (Forall (valid_timestamp Date_getTime) logs ->
      sortLogsByTimestamp Date_getTime
        (sortLogsByTimestamp Date_getTime logs)
      = sortLogsByTimestamp Date_getTime logs).
Proof.
  unfold sortLogsByTimestamp. split.
  - apply Array_sort_sorted_id.
  - intros Hvalid. apply Array_sort_sorted_id, Array_sort_sorted, Hvalid.
Qed.

Lemma sortLogsByTimestamp_sorted_input_witness :
  Forall (valid_timestamp ISO.getTime) sample_logs
  /\ sortLogsByTimestamp ISO.getTime
       (sortLogsByTimestamp ISO.getTime sample_logs)
     = sortLogsByTimestamp ISO.getTime sample_logs.
Proof.
  split; [exact sample_logs_valid |].
  exact (proj2 (sortLogsByTimestamp_sorted_input ISO.getTime sample_logs)
           sample_logs_valid).
Defined.

(** X7.  For a list whose timestamps are dates the sort need not come
    last: sorting the whole list first and then filtering and searching
    gives the list [processAuditLogs] gives, and each stage alone commutes
    with the sort. *)
Theorem sort_commutes_with_stages
  (Date_getTime : string -> option Z) (logs : list AuditLogEntry)
  (wanted searchTerm : string) :
  Forall (valid_timestamp Date_getTime) logs ->
  searchLogs
    (filterLogsByActionType (sortLogsByTimestamp Date_getTime logs) wanted)
    searchTerm
  = processAuditLogs Date_getTime logs wanted searchTerm
  /\ filterLogsByActionType (sortLogsByTimestamp Date_getTime logs) wanted
     = sortLogsByTimestamp Date_getTime (filterLogsByActionType logs wanted)
  /\ searchLogs (sortLogsByTimestamp Date_getTime logs) searchTerm
     = sortLogsByTimestamp Date_getTime (searchLogs logs searchTerm).
Proof.
  intros Hvalid. split; [| split].
  - rewrite stages_as_filter, processAuditLogs_unfold.
    apply sort_filter_swap, Hvalid.
  - unfold filterLogsByActionType.
    destruct (JS.isEmpty wanted || String.eqb wanted "all");
      [reflexivity |].
    apply sort_filter_swap, Hvalid.
  - unfold searchLogs.
    destruct (JS.isEmpty searchTerm || String.eqb (JS.trim searchTerm) "");
      [reflexivity |].
    apply sort_filter_swap, Hvalid.
Qed.

Lemma sort_commutes_with_stages_witness :
  Forall (valid_timestamp ISO.getTime) test_logs
  /\ searchLogs
       (filterLogsByActionType (sortLogsByTimestamp ISO.getTime test_logs)
          "loan_created")
       "alice"
     = processAuditLogs ISO.getTime test_logs "loan_created" "alice".
Proof.
  assert (H : Forall (valid_timestamp ISO.getTime) test_logs)
    by (repeat constructor; eexists; vm_compute; reflexivity).
  split; [exact H |].
  exact (proj1 (sort_commutes_with_stages ISO.getTime test_logs
                  "loan_created" "alice" H)).
Defined.

(** X8.  Running the query on its own result with the same arguments
    changes nothing, for a list whose timestamps are dates; and the result
    of a query is never longer than the list, so the query of the empty
    list is empty. *)
Theorem processAuditLogs_idempotent
  (Date_getTime : string -> option Z) (logs : list AuditLogEntry)
  (wanted searchTerm : string) :
  (Forall (valid_timestamp Date_getTime) logs ->
   processAuditLogs Date_getTime
     (processAuditLogs Date_getTime logs wanted searchTerm)
     wanted searchTerm
   = processAuditLogs Date_getTime logs wanted searchTerm)
  /\ (length (processAuditLogs Date_getTime logs wanted searchTerm)
      <= length logs)%nat.
Proof.
  rewrite !processAuditLogs_unfold. unfold sortLogsByTimestamp. split.
  - intros Hvalid.
    rewrite sort_filter_swap by (apply valid_filter, Hvalid).
    rewrite filter_twice.
    rewrite (List.filter_ext _ (query_keeps wanted searchTerm))
      by (intros e; apply andb_diag).
    apply Array_sort_sorted_id, Array_sort_sorted, valid_filter, Hvalid.
  - rewrite (Permutation_length
               (Array_sort_Permutation Date_getTime
                  (List.filter (query_keeps wanted searchTerm) logs))).
    apply List.filter_length_le.
Qed.

Lemma processAuditLogs_idempotent_witness :
  Forall (valid_timestamp ISO.getTime) sample_logs
  /\ processAuditLogs ISO.getTime
       (processAuditLogs ISO.getTime sample_logs "all" "smith") "all" "smith"
     = processAuditLogs ISO.getTime sample_logs "all" "smith".
Proof.
  split; [exact sample_logs_valid |].
  exact (proj1 (processAuditLogs_idempotent ISO.getTime sample_logs
                  "all" "smith")
           sample_logs_valid).
Defined.

(** ** Which array a stage returns *)

Section References.

Lemma alloc_fresh (v : list AuditLogEntry) (h : Heap.heap) :
  h !! fst (Heap.alloc v h) = None.
Proof. simpl. apply lookup_ge_None. lia. Qed.

Lemma Array_filter_fresh p logs (h : Heap.heap) :
  h !! fst (Heap.Array_filter p logs h) = None.
Proof.
  unfold Heap.Array_filter, Heap.bind, Heap.read. simpl.
  apply lookup_ge_None. lia.
Qed.

Lemma sortLogsByTimestamp_new Date_getTime logs (h : Heap.heap) :
  h !! fst (Heap.sortLogsByTimestamp Date_getTime logs h) = None.
Proof.
  unfold Heap.sortLogsByTimestamp, Heap.spread, Heap.Array_sort_in_place,
    Heap.bind, Heap.read, Heap.write, Heap.alloc, Heap.ret. simpl.
  apply lookup_ge_None. lia.
Qed.

End References.

(** X9.  Which array a stage hands back.  With the filter ["all"] or the
    empty string, [filterLogsByActionType] returns the very array it was
    given and allocates nothing, and so does [searchLogs] with a blank
    term: a caller that changes the result changes the input.  With any
    other argument they return an array that did not exist before.
    [sortLogsByTimestamp] and [processAuditLogs] always return an array
    that did not exist before. *)
Theorem stage_result_reference
  (Date_getTime : string -> option Z) (h : Heap.heap) (logs : Heap.ref)
  (items : list AuditLogEntry) (wanted searchTerm : string) :
  h !! logs = Some items ->
  (wanted = "" \/ wanted = "all" ->
   Heap.filterLogsByActionType logs wanted h = (logs, h))
  /\ (wanted <> "" -> wanted <> "all" ->
      h !! fst (Heap.filterLogsByActionType logs wanted h) = None)
  /\ (blank searchTerm = true ->
      Heap.searchLogs logs searchTerm h = (logs, h))
  /\ (blank searchTerm = false ->
      h !! fst (Heap.searchLogs logs searchTerm h) = None)
  /\ h !! fst (Heap.sortLogsByTimestamp Date_getTime logs h) = None
  /\ h !! fst (Heap.processAuditLogs Date_getTime logs wanted searchTerm h)
     = None.
Proof.
  intros H. repeat apply conj.
  - intros [-> | ->]; reflexivity.
  - intros Hempty Hall. unfold Heap.filterLogsByActionType.
    destruct (JS.isEmpty wanted) eqn:E.
    { apply isEmpty_iff in E. contradiction. }
    destruct (String.eqb wanted "all") eqn:E'.
    { apply String.eqb_eq in E'. contradiction. }
    apply Array_filter_fresh.
  - unfold blank, Heap.searchLogs. intros ->.
    rewrite orb_true_r. reflexivity.
  - unfold blank, Heap.searchLogs. intros E. rewrite E.
    destruct searchTerm as [| c s]; [discriminate E |].
    apply Array_filter_fresh.
  - apply sortLogsByTimestamp_new.
  - pose proof (bind_computes _ _ _ _ logs
                  (filterLogsByActionType_computes logs wanted)
                  (fun r => searchLogs_computes r searchTerm)) as Hc.
    destruct (Hc h items H) as (r2 & h2 & E2 & _ & Hframe).
    unfold Heap.processAuditLogs.
    unfold Heap.bind in *.
    destruct (Heap.filterLogsByActionType logs wanted h) as [r1 h1].
    rewrite E2.
    pose proof (sortLogsByTimestamp_new Date_getTime r2 h2) as Hnew.
    destruct (Heap.sortLogsByTimestamp Date_getTime r2 h2) as [r3 h3].
    simpl in *.
    destruct (h !! r3) as [x |] eqn:Ex; [| reflexivity].
    apply Hframe in Ex. congruence.
Qed.

Lemma stage_result_reference_witness :
  sample_heap !! 0%nat = Some sample_logs
  /\ Heap.filterLogsByActionType 0%nat "all" sample_heap
     = (0%nat, sample_heap)
  /\ sample_heap
       !! fst (Heap.processAuditLogs ISO.getTime 0%nat "all" "" sample_heap)
     = None.
Proof.
  assert (H : sample_heap !! 0%nat = Some sample_logs) by reflexivity.
  pose proof (stage_result_reference ISO.getTime sample_heap 0%nat
                sample_logs "all" "" H) as (Hsame & _ & _ & _ & _ & Hnew).
  split; [exact H |].
  split; [exact (Hsame (or_intror eq_refl)) | exact Hnew].
Defined.

(** ** The audit log viewer *)

Section Viewer.
Import AuditLogViewer.

Lemma getActionLabel_other s :
  (forall a, actionType_literal a <> s) -> getActionLabel s = s.
Proof.
  intros H. unfold getActionLabel.
  destruct (String.eqb_spec s "loan_created") as [-> | _];
    [destruct (H loan_created); reflexivity |].
  destruct (String.eqb_spec s "status_changed_manual") as [-> | _];
    [destruct (H status_changed_manual); reflexivity |].
  destruct (String.eqb_spec s "status_changed_auto") as [-> | _];
    [destruct (H status_changed_auto); reflexivity |].
  destruct (String.eqb_spec s "loan_deleted") as [-> | _];
    [destruct (H loan_deleted); reflexivity |].
  reflexivity.
Qed.

Lemma getActionClass_other s :
  (forall a, actionType_literal a <> s) -> getActionClass s = "".
Proof.
  intros H. unfold getActionClass.
  destruct (String.eqb_spec s "loan_created") as [-> | _];
    [destruct (H loan_created); reflexivity |].
  destruct (String.eqb_spec s "status_changed_manual") as [-> | _];
    [destruct (H status_changed_manual); reflexivity |].
  destruct (String.eqb_spec s "status_changed_auto") as [-> | _];
    [destruct (H status_changed_auto); reflexivity |].
  destruct (String.eqb_spec s "loan_deleted") as [-> | _];
    [destruct (H loan_deleted); reflexivity |].
  reflexivity.
Qed.

Lemma badge_label_injective e e' :
  badge_label e = badge_label e' -> actionType e = actionType e'.
Proof.
  unfold badge_label.
  destruct (actionType e), (actionType e'); simpl; intros H;
    first [reflexivity | discriminate H].
Qed.

Lemma badge_class_injective e e' :
  badge_class e = badge_class e' -> actionType e = actionType e'.
Proof.
  unfold badge_class.
  destruct (actionType e), (actionType e'); simpl; intros H;
    first [reflexivity | discriminate H].
Qed.

End Viewer.

(** X10.  The badge of a row tells the action type: two entries with the
    same label, or with the same class, have the same action type, and no
    entry has an empty label or class.  For a string that is none of the
    four action types [getActionLabel] gives the string itself and
    [getActionClass] the empty string. *)
Theorem badge_tells_action_type :
  (forall e e',
      AuditLogViewer.badge_label e = AuditLogViewer.badge_label e'
      \/ AuditLogViewer.badge_class e = AuditLogViewer.badge_class e' ->
      actionType e = actionType e')
  /\ (forall e,
        AuditLogViewer.badge_label e <> ""
        /\ AuditLogViewer.badge_class e <> "")
  /\ (forall s,
        (forall a, actionType_literal a <> s) ->
        AuditLogViewer.getActionLabel s = s
        /\ AuditLogViewer.getActionClass s = "").
Proof.
  split; [| split].
  - intros e e' [H | H];
      [apply badge_label_injective | apply badge_class_injective]; exact H.
  - intros e. unfold AuditLogViewer.badge_label, AuditLogViewer.badge_class.
    destruct (actionType e); split; discriminate.
  - intros s H. split;
      [apply getActionLabel_other | apply getActionClass_other]; exact H.
Qed.

Lemma badge_tells_action_type_witness :
  (forall a, actionType_literal a <> "loan_archived")
  /\ AuditLogViewer.getActionLabel "loan_archived" = "loan_archived"
  /\ AuditLogViewer.getActionClass "loan_archived" = "".
Proof.
  assert (H : forall a, actionType_literal a <> "loan_archived")
    by (intros []; discriminate).
  split; [exact H |].
  exact (proj2 (proj2 badge_tells_action_type) "loan_archived" H).
Defined.

(** X11.  The select and the badges agree.  For every option of the
    select other than "All Actions", the filter stage run with the
    option's value keeps exactly the entries whose badge shows the
    option's text; with the value of "All Actions" it keeps the list.  No
    two options share a value or a text. *)
Theorem filter_options_match_badges (logs : list AuditLogEntry) :
  (forall value text,
      In (value, text) AuditLogViewer.filter_options -> value <> "all" ->
      forall e,
        In e (filterLogsByActionType logs value)
        <-> In e logs /\ AuditLogViewer.badge_label e = text)
  /\ filterLogsByActionType logs "all" = logs
  /\ List.NoDup (map fst AuditLogViewer.filter_options)
  /\ List.NoDup (map snd AuditLogViewer.filter_options).
Proof.
  split; [| split; [reflexivity | split]].
  - intros value text Hin Hall e.
    assert (Hvalue : value <> "").
    { intros ->. simpl in Hin.
      repeat destruct Hin as [Hin | Hin]; try discriminate Hin.
      exact Hin. }
    rewrite (filterLogsByActionType_typed logs value Hvalue Hall).
    rewrite List.filter_In.
    unfold hasActionType, AuditLogViewer.badge_label.
    rewrite String.eqb_eq.
    simpl in Hin.
    destruct Hin as [Hin | [Hin | [Hin | [Hin | [Hin | []]]]]];
      injection Hin as <- <-; try (exfalso; apply Hall; reflexivity);
      (split; intros [Hl Ht]; (split; [exact Hl |]);
       destruct (actionType e); simpl in *;
       first [reflexivity | discriminate Ht]).
  - simpl. repeat constructor; simpl; intuition discriminate.
  - simpl. repeat constructor; simpl; intuition discriminate.
Qed.

Lemma filter_options_match_badges_witness :
  In ("loan_deleted", "Loan Deleted") AuditLogViewer.filter_options
  /\ "loan_deleted" <> "all"
  /\ (In test_log_1 (filterLogsByActionType test_logs "loan_deleted")
      <-> In test_log_1 test_logs
          /\ AuditLogViewer.badge_label test_log_1 = "Loan Deleted").
Proof.
  assert (Hin : In ("loan_deleted", "Loan Deleted")
                  AuditLogViewer.filter_options)
    by (simpl; auto 6).
  assert (Hall : "loan_deleted" <> "all") by discriminate.
  split; [exact Hin |]. split; [exact Hall |].
  exact (proj1 (filter_options_match_badges test_logs)
           "loan_deleted" "Loan Deleted" Hin Hall test_log_1).
Defined.

(** X12.  What the details cell shows for the entries the constructors
    build.  A creation entry shows the dash.  A status-change entry shows
    the transition when both statuses are non-empty; with an empty new
    status it shows [Status: previous], as a deletion does, and with an
    empty previous status it shows the dash whatever the new status is.  A
    deletion entry shows [Status: status], or the dash when the status is
    empty. *)
Theorem details_of_constructed (env : Env) :
  (forall input,
      AuditLogViewer.details (createLoanCreatedLog env input)
      = AuditLogViewer.Dash)
  /\ (forall input,
        AuditLogViewer.details (createStatusChangeLog env input)
        = if JS.isEmpty (sc_previousStatus input) then AuditLogViewer.Dash
          else if JS.isEmpty (sc_newStatus input)
          then AuditLogViewer.StatusOnly (sc_previousStatus input)
          else AuditLogViewer.Transition (sc_previousStatus input)
                 (sc_newStatus input))
  /\ (forall input,
        AuditLogViewer.details (createLoanDeletedLog env input)
        = if JS.isEmpty (dl_status input) then AuditLogViewer.Dash
          else AuditLogViewer.StatusOnly (dl_status input)).
Proof.
  split; [| split]; intros input; unfold AuditLogViewer.details; simpl.
  - reflexivity.
  - destruct (JS.isEmpty (sc_previousStatus input));
      destruct (JS.isEmpty (sc_newStatus input)); reflexivity.
  - destruct (JS.isEmpty (dl_status input)); reflexivity.
Qed.

Section Display.
Import AuditLogViewer.

Lemma filter_nil_iff {A} (p : A -> bool) l :
  List.filter p l = [] <-> forall x, In x l -> p x = false.
Proof.
  induction l as [| a l IH]; simpl.
  - split; [intros _ x [] | reflexivity].
  - destruct (p a) eqn:E.
    + split; [discriminate |]. intros H. specialize (H a (or_introl eq_refl)).
      congruence.
    + rewrite IH. split.
      * intros H x [<- | Hx]; auto.
      * intros H x Hx. apply H. right. exact Hx.
Qed.

Lemma length_zero_iff {A} (l : list A) : (length l =? 0)%nat = true <-> l = [].
Proof. destruct l; simpl; split; congruence. Qed.

Lemma processAuditLogs_nil_iff Date_getTime logs wanted searchTerm :
  processAuditLogs Date_getTime logs wanted searchTerm = []
  <-> forall e, In e logs -> query_keeps wanted searchTerm e = false.
Proof.
  rewrite <- filter_nil_iff, processAuditLogs_unfold.
  unfold sortLogsByTimestamp.
  pose proof (Array_sort_Permutation Date_getTime
                (List.filter (query_keeps wanted searchTerm) logs)) as Hp.
  split; intros H.
  - rewrite H in Hp. apply Permutation_nil in Hp. exact Hp.
  - rewrite H. reflexivity.
Qed.

Lemma display_unfold Date_getTime logs filterType searchTerm :
  display Date_getTime logs filterType searchTerm
  = match processAuditLogs Date_getTime logs filterType searchTerm with
    | [] => match logs with [] => NoEntriesYet | _ :: _ => NoMatch end
    | _ :: _ =>
        Table (processAuditLogs Date_getTime logs filterType searchTerm)
    end.
Proof.
  unfold display.
  destruct (processAuditLogs Date_getTime logs filterType searchTerm);
    destruct logs; reflexivity.
Qed.

End Display.

(** X13.  What the viewer shows under its controls, for [allLogs] an
    array.  It shows "No audit log entries yet" exactly when the log is
    empty; "No entries match your filters" exactly when the log is not
    empty and the query keeps none of its entries; otherwise the table of
    the query's result, which is not empty.  With the filter and the
    search of a viewer just mounted, a log that is not empty is shown
    whole.  Mounting loads what [getAuditLogs] gives, writes nothing, and
    starts with the filter ["all"] and an empty search. *)
Theorem viewer_display (Date_getTime : string -> option Z)
  (logs : list AuditLogEntry) (filterType searchTerm : string) :
  (AuditLogViewer.display Date_getTime logs filterType searchTerm
   = AuditLogViewer.NoEntriesYet
   <-> logs = [])
  /\ (AuditLogViewer.display Date_getTime logs filterType searchTerm
      = AuditLogViewer.NoMatch
      <-> logs <> []
          /\ forall e, In e logs -> query_keeps filterType searchTerm e = false)
  /\ (forall rows,
        AuditLogViewer.display Date_getTime logs filterType searchTerm
        = AuditLogViewer.Table rows ->
        rows = processAuditLogs Date_getTime logs filterType searchTerm
        /\ rows <> [])
  /\ (logs <> [] ->
      AuditLogViewer.display Date_getTime logs "all" ""
      = AuditLogViewer.Table (sortLogsByTimestamp Date_getTime logs))
  /\ (forall ls,
        AuditLogViewer.mounted ls
        = {| AuditLogViewer.storage := ls;
             AuditLogViewer.allLogs := loaded (tredgate_audit_logs ls);
             AuditLogViewer.filterType := "all";
             AuditLogViewer.searchTerm := "" |}).
Proof.
  pose proof (processAuditLogs_nil_iff Date_getTime logs filterType searchTerm)
    as Hnil.
  rewrite (display_unfold Date_getTime logs filterType searchTerm).
  split; [| split; [| split; [| split]]].
  - destruct logs as [| e rest].
    + rewrite (proj2 Hnil) by (intros ? []). split; reflexivity.
    + destruct (processAuditLogs Date_getTime (e :: rest) filterType
                  searchTerm);
        split; intros H; discriminate H.
  - destruct logs as [| e rest].
    + rewrite (proj2 Hnil) by (intros ? []).
      split; [discriminate | intros [H _]; contradiction].
    + destruct (processAuditLogs Date_getTime (e :: rest) filterType
                  searchTerm) as [| row rows'] eqn:Ep.
      * split; [| reflexivity].
        intros _. split; [discriminate | apply Hnil; reflexivity].
      * split; [discriminate |].
        intros [_ H]. apply Hnil in H. discriminate H.
  - intros rows.
    destruct (processAuditLogs Date_getTime logs filterType searchTerm)
      as [| row rows'] eqn:Ep.
    + destruct logs; discriminate.
    + intros [= <-]. split; [reflexivity | discriminate].
  - intros Hne.
    rewrite (display_unfold Date_getTime logs "all" "").
    assert (E : processAuditLogs Date_getTime logs "all" ""
                = sortLogsByTimestamp Date_getTime logs) by reflexivity.
    rewrite E.
    destruct (sortLogsByTimestamp Date_getTime logs) as [| x r] eqn:Es;
      [| reflexivity].
    exfalso. apply Hne.
    pose proof (Array_sort_Permutation Date_getTime logs) as Hperm.
    unfold sortLogsByTimestamp in Es. rewrite Es in Hperm.
    apply Permutation_nil, Hperm.
  - intros ls. unfold AuditLogViewer.mounted, final,
      AuditLogViewer.loadLogs, ebind, AuditLogViewer.service.
    simpl. rewrite getAuditLogs_loaded. reflexivity.
Qed.

Lemma viewer_display_witness :
  test_logs <> []
  /\ AuditLogViewer.display ISO.getTime test_logs "all" ""
     = AuditLogViewer.Table [test_log_2; test_log_3; test_log_1].
Proof.
  assert (H : test_logs <> []) by discriminate.
  split; [exact H |].
  exact (proj1 (proj2 (proj2 (proj2 (viewer_display ISO.getTime test_logs
                                       "all" "")))) H).
Defined.

Example viewer_no_match :
  AuditLogViewer.display ISO.getTime test_logs "loan_deleted" ""
  = AuditLogViewer.NoMatch.
Proof. reflexivity. Qed.

(** ** The delete dialog of the loan list *)

Section Dialog.
Import DeleteDialog.

(** One action on a consistent dialog: what it emits and where it leaves
    the target. *)
Lemma step_cases a st :
  dialog_consistent st ->
  dialog_consistent (fst (step a st))
  /\ match a with
     | click_delete id applicantName =>
         snd (step a st) = []
         /\ deleteTarget (fst (step a st))
            = Some {| target_id := id; target_name := applicantName |}
     | dialog i =>
         (snd (step a st) = []
          /\ (fst (step a st) = st \/ fst (step a st) = initial))
         \/ (i = ConfirmModal.click_confirm
             /\ fst (step a st) = initial
             /\ exists target,
                 deleteTarget st = Some target
                 /\ snd (step a st) = [LoanList.delete (target_id target)])
     end.
Proof.
  destruct st as [show target listen]. unfold dialog_consistent; simpl.
  intros [Hshow Hlisten]. subst listen.
  destruct a as [id applicantName | i].
  - destruct target; subst show; simpl; auto.
  - destruct i as [| | | key];
      destruct target as [t |]; subst show; simpl;
      try (split; [split; reflexivity | left; split; auto]; fail).
    + split; [split; reflexivity |].
      right. split; [reflexivity |]. split; [reflexivity |].
      exists t. split; reflexivity.
    + unfold ConfirmModal.handleEscape.
      destruct (String.eqb key "Escape"); simpl;
        (split; [split; reflexivity | left; split; auto]).
Qed.

Lemma initial_consistent : dialog_consistent initial.
Proof. split; reflexivity. Qed.

Lemma run_app actions actions' st :
  run (actions ++ actions') st
  = (fst (run actions' (fst (run actions st))),
     (snd (run actions st) ++ snd (run actions' (fst (run actions st))))%list).
Proof.
  revert st. induction actions as [| a rest IH]; intros st; simpl.
  - destruct (run actions' st); reflexivity.
  - destruct (step a st) as [st1 out1]. rewrite IH.
    destruct (run rest st1) as [st2 out2]. simpl.
    rewrite app_assoc. reflexivity.
Qed.

Lemma run_emits actions :
  forall st,
    dialog_consistent st ->
    dialog_consistent (fst (run actions st))
    /\ (forall e,
          In e (snd (run actions st)) ->
          exists i,
            e = LoanList.delete i
            /\ (In i (clicked actions)
                \/ exists target,
                    deleteTarget st = Some target /\ target_id target = i))
    /\ (length (snd (run actions st))
        <= length (clicked actions) + pending_target st)%nat.
Proof.
  induction actions as [| a rest IH]; intros st Hst; simpl.
  - split; [exact Hst |]. split; [intros e [] | lia].
  - destruct (step_cases a st Hst) as [Hst1 Ha].
    destruct (step a st) as [st1 out1]. simpl in Hst1, Ha.
    destruct (IH st1 Hst1) as (Hst2 & Hin & Hlen).
    destruct (run rest st1) as [st2 out2]. simpl in *.
    split; [exact Hst2 |].
    destruct a as [id applicantName | i].
    + destruct Ha as [-> Htarget]. simpl. split.
      * intros e He. destruct (Hin e He) as (j & -> & [Hj | (t & Et & <-)]).
        -- exists j. auto.
        -- exists (target_id t). split; [reflexivity |]. left. left.
           rewrite Htarget in Et. injection Et as <-. reflexivity.
      * unfold pending_target in Hlen. rewrite Htarget in Hlen. lia.
    + destruct Ha as [[-> Hst1'] | (_ & -> & t & Et & ->)].
      * simpl. split.
        -- intros e He. destruct (Hin e He) as (j & -> & [Hj | (t & Et & <-)]).
           ++ exists j. auto.
           ++ exists (target_id t). split; [reflexivity |]. right.
              exists t. split; [| reflexivity].
              destruct Hst1' as [-> | ->]; [exact Et | discriminate Et].
        -- assert (pending_target st1 <= pending_target st)%nat.
           { destruct Hst1' as [-> | ->]; [lia |].
             unfold pending_target; simpl. lia. }
           lia.
      * simpl. split.
        -- intros e [<- | He].
           ++ exists (target_id t). split; [reflexivity |]. right.
              exists t. auto.
           ++ destruct (Hin e He) as (j & -> & [Hj | (t' & Et' & _)]).
              ** exists j. auto.
              ** discriminate Et'.
        -- unfold pending_target in *. rewrite Et. simpl in Hlen. lia.
Qed.

End Dialog.

Lemma view_step_consistent a st :
  view_consistent st -> view_consistent (fst (ListView.step a st)).
Proof.
  intros Hst. unfold ListView.step.
  destruct a as [a | |]; destruct (ListView.dialog st) as [d |] eqn:Ed;
    try exact Hst.
  - pose proof (proj1 (step_cases a d (Hst d Ed))) as Hd.
    destruct (DeleteDialog.step a d) as [d' out]. simpl in *.
    intros d0 [= <-]. exact Hd.
  - intros d0 H. discriminate H.
  - intros d0 [= <-]. apply initial_consistent.
Qed.

Lemma view_run_consistent actions :
  forall st,
    view_consistent st -> view_consistent (fst (ListView.run actions st)).
Proof.
  induction actions as [| a rest IH]; intros st Hst; simpl; [exact Hst |].
  pose proof (view_step_consistent a st Hst) as H1.
  destruct (ListView.step a st) as [st1 out1]. simpl in H1.
  specialize (IH st1 H1).
  destruct (ListView.run rest st1) as [st2 out2]. exact IH.
Qed.

(** X14.  Whatever the user does in the list and with the two buttons of
    the navigation, while the list is mounted its delete dialog is open
    exactly while a delete target is set, and its Escape handler is
    registered exactly while it is open.  Leaving the view with the dialog
    open does not remove the handler: the list is gone and one more stale
    handler stays on the window; leaving with the dialog closed leaves
    none, and no action ever removes a stale handler.  In a consistent
    dialog, a key pressed while it is closed does nothing; while it is
    open, Escape closes it and clears the target without emitting, and any
    other key does nothing. *)
Theorem dialog_stays_consistent (actions : list ListView.Action) :
  view_consistent (fst (ListView.run actions ListView.initial))
  /\ (forall d,
        ListView.dialog (fst (ListView.run actions ListView.initial))
        = Some d ->
        fst (ListView.step ListView.showAuditView
               (fst (ListView.run actions ListView.initial)))
        = {| ListView.dialog := None;
             ListView.stale :=
               (ListView.stale (fst (ListView.run actions ListView.initial))
                + if DeleteDialog.showDeleteModal d then 1 else 0)%nat |})
  /\ (forall a,
        (ListView.stale (fst (ListView.run actions ListView.initial))
         <= ListView.stale
              (fst (ListView.step a
                      (fst (ListView.run actions ListView.initial)))))%nat)
  /\ (forall st key,
        dialog_consistent st ->
        DeleteDialog.step (DeleteDialog.dialog (ConfirmModal.keydown key)) st
        = if DeleteDialog.showDeleteModal st && String.eqb key "Escape"
          then (DeleteDialog.initial, [])
          else (st, [])).
Proof.
  assert (Hinit : view_consistent ListView.initial).
  { intros d [= <-]. apply initial_consistent. }
  pose proof (view_run_consistent actions ListView.initial Hinit) as Hst.
  split; [exact Hst |]. split; [| split].
  - intros d Ed. unfold ListView.step. rewrite Ed. simpl.
    destruct (Hst d Ed) as [_ ->]. reflexivity.
  - intros a. unfold ListView.step.
    destruct a as [a | |];
      destruct (ListView.dialog _) as [d |]; simpl; try lia.
    destruct (DeleteDialog.step a d). simpl. lia.
  - intros [show target listen] key [Hshow Hlisten]. simpl in *. subst listen.
    unfold ConfirmModal.handleEscape.
    destruct target; subst show; simpl; [| reflexivity].
    destruct (String.eqb key "Escape"); reflexivity.
Qed.

Lemma dialog_stays_consistent_witness :
  ListView.dialog
    (fst (ListView.run
            [ListView.on_list (DeleteDialog.click_delete "1" "John Doe")]
            ListView.initial))
  = Some (DeleteDialog.rewatch DeleteDialog.initial
            (DeleteDialog.handleDelete "1" "John Doe" DeleteDialog.initial))
  /\ ListView.run
       [ListView.on_list (DeleteDialog.click_delete "1" "John Doe");
        ListView.showAuditView; ListView.showLoansView]
       ListView.initial
     = ({| ListView.dialog := Some DeleteDialog.initial;
           ListView.stale := 1 |}, [])
  /\ fst (ListView.step ListView.showAuditView
            (fst (ListView.run
                    [ListView.on_list
                       (DeleteDialog.click_delete "1" "John Doe")]
                    ListView.initial)))
     = {| ListView.dialog := None; ListView.stale := 1 |}.
Proof.
  assert (H : ListView.dialog
                (fst (ListView.run
                        [ListView.on_list
                           (DeleteDialog.click_delete "1" "John Doe")]
                        ListView.initial))
              = Some (DeleteDialog.rewatch DeleteDialog.initial
                        (DeleteDialog.handleDelete "1" "John Doe"
                           DeleteDialog.initial)))
    by reflexivity.
  split; [exact H |]. split; [reflexivity |].
  exact (proj1 (proj2 (dialog_stays_consistent
                         [ListView.on_list
                            (DeleteDialog.click_delete "1" "John Doe")]))
           _ H).
Defined.

(** X15.  What the dialog lets through.  In every run from the closed
    dialog, each event the list emits from it is a [delete] for the id of
    a row whose delete button was clicked, and there are no more such
    events than clicks.  A click on a row's delete button followed by
    Delete in the dialog emits [delete] for that row and closes the
    dialog; followed by Cancel, a click on the overlay or Escape, it emits
    nothing, and a Delete pressed after that emits nothing either. *)
Theorem dialog_deletes_what_was_confirmed
  (actions : list DeleteDialog.Action) :
  (forall e,
      In e (snd (DeleteDialog.run actions DeleteDialog.initial)) ->
      exists i,
        e = LoanList.delete i /\ In i (DeleteDialog.clicked actions))
  /\ (length (snd (DeleteDialog.run actions DeleteDialog.initial))
      <= length (DeleteDialog.clicked actions))%nat
  /\ (forall id applicantName,
        DeleteDialog.run
          (actions
           ++ [DeleteDialog.click_delete id applicantName;
               DeleteDialog.dialog ConfirmModal.click_confirm])
          DeleteDialog.initial
        = (DeleteDialog.initial,
           (snd (DeleteDialog.run actions DeleteDialog.initial)
            ++ [LoanList.delete id])%list))
  /\ (forall id applicantName i,
        i = ConfirmModal.click_cancel \/ i = ConfirmModal.click_overlay
        \/ i = ConfirmModal.keydown "Escape" ->
        DeleteDialog.run
          (actions
           ++ [DeleteDialog.click_delete id applicantName;
               DeleteDialog.dialog i;
               DeleteDialog.dialog ConfirmModal.click_confirm])
          DeleteDialog.initial
        = (DeleteDialog.initial,
           snd (DeleteDialog.run actions DeleteDialog.initial))).
Proof.
  destruct (run_emits actions DeleteDialog.initial initial_consistent)
    as (Hst & Hin & Hlen).
  split; [| split; [| split]].
  - intros e He. destruct (Hin e He) as (i & -> & [Hi | (t & Et & _)]).
    + exists i. auto.
    + discriminate Et.
  - unfold pending_target in Hlen. simpl in Hlen. lia.
  - intros id applicantName. rewrite run_app.
    destruct (DeleteDialog.run actions DeleteDialog.initial)
      as [[show target listen] out].
    destruct Hst as [Hshow Hlisten]. simpl in *. subst listen.
    destruct target; subst show; reflexivity.
  - intros id applicantName i Hi. rewrite run_app.
    destruct (DeleteDialog.run actions DeleteDialog.initial)
      as [[show target listen] out].
    destruct Hst as [Hshow Hlisten]. simpl in *. subst listen.
    destruct Hi as [-> | [-> | ->]];
      destruct target; subst show; simpl; rewrite ?app_nil_r; reflexivity.
Qed.

Lemma dialog_deletes_what_was_confirmed_witness :
  (ConfirmModal.keydown "Escape" = ConfirmModal.click_cancel
   \/ ConfirmModal.keydown "Escape" = ConfirmModal.click_overlay
   \/ ConfirmModal.keydown "Escape" = ConfirmModal.keydown "Escape")
  /\ DeleteDialog.run
       [DeleteDialog.click_delete "1" "John Doe";
        DeleteDialog.dialog (ConfirmModal.keydown "Escape");
        DeleteDialog.dialog ConfirmModal.click_confirm]
       DeleteDialog.initial
     = (DeleteDialog.initial, []).
Proof.
  assert (H : ConfirmModal.keydown "Escape" = ConfirmModal.click_cancel
              \/ ConfirmModal.keydown "Escape" = ConfirmModal.click_overlay
              \/ ConfirmModal.keydown "Escape"
                 = ConfirmModal.keydown "Escape")
    by (right; right; reflexivity).
  split; [exact H |].
  exact (proj2 (proj2 (proj2 (dialog_deletes_what_was_confirmed [])))
           "1" "John Doe" (ConfirmModal.keydown "Escape") H).
Defined.

(** ** The storage helpers of the end-to-end tests *)


